(** * PyGeodesy, [sphericalTrigonometry.py]: great-circle paths and polygons

    A shallow embedding of the functions of [pygeodesy/sphericalTrigonometry.py]
    and the properties stated about them.

    Numbers.  Python floats are idealised as the real numbers of the
    Standard Library; [math.sin], [math.cos], [math.asin], ... are the
    functions of the same name on [R].  Operations of Python that raise
    ([x / 0], [math.asin] outside [-1, 1], an index out of range, an explicit
    [raise]) return [Raise] in the error monad [result].

    Collaborators.  The modules [fmath], [formy], [utily], [points],
    [vector3d] and [sphericalBase] are imported by the file but are not part
    of it.  One-line helpers and constants are modelled from the specification;
    the others are the fields of one interface (type class) per module, and the
    general theorems hold for every implementation of these interfaces.
    Module [Model] gives one implementation, used to run the code on concrete
    points. *)

From Stdlib Require Import Reals Lra Lia List ZArith Bool Permutation.
Import ListNotations.
Open Scope R_scope.

(** ** Python values and exceptions *)

(** The [ValueError]s raised in the file, by the head of their message. *)
Inductive value_error : Type :=
| RadiusInvalid           (* 'radius invalid: %r' *)
| NonConvex               (* 'non-convex: %r...' *)
| IntersectionParallel    (* 'intersection parallel: %r vs %r' *)
| IntersectionInfinite    (* 'intersection infinite: %r vs %r' *)
| IntersectionAmbiguous   (* 'intersection ambiguous: %r vs %r' *)
| MathDomain              (* 'math domain error' *)
| TooFewPoints.           (* 'too few points: %s' *)

Inductive exn : Type :=
| ValueError (e : value_error)
| ZeroDivisionError
| IndexError
| CrossError
| RangeError.   (* raised by the constructor of points *)

Inductive result (A : Type) : Type :=
| Ok (a : A)
| Raise (e : exn).
Arguments Ok {A} a.
Arguments Raise {A} e.

Definition bind {A B : Type} (m : result A) (k : A -> result B) : result B :=
  match m with
  | Ok a => k a
  | Raise e => Raise e
  end.

Declare Scope py_scope.
Delimit Scope py_scope with py.
Notation "x <- m ;; k" := (bind m (fun x => k))
  (at level 61, m at next level, right associativity) : py_scope.
Notation "' p <- m ;; k" := (bind m (fun x => let p := x in k))
  (at level 61, p pattern, m at next level, right associativity) : py_scope.
Open Scope py_scope.

(** [seq[i]] on a Python sequence: a negative index counts from the end, an
    index out of range raises [IndexError]. *)
Definition getitem {A : Type} (l : list A) (i : Z) : result A :=
  let n := Z.of_nat (length l) in
  let j := (if i <? 0 then i + n else i)%Z in
  if (j <? 0)%Z then Raise IndexError
  else match nth_error l (Z.to_nat j) with
       | Some a => Ok a
       | None => Raise IndexError
       end.

(** [range(m, n)] and [range(n)]. *)
Definition range2 (m n : nat) : list nat := seq m (n - m).
Definition range (n : nat) : list nat := range2 0 n.

(** ** The [math] module on real numbers *)

Definition py_div (x y : R) : result R :=
  if Req_dec_T y 0 then Raise ZeroDivisionError else Ok (x / y).

Definition py_asin (x : R) : result R :=
  if Rle_dec (-1) x
  then if Rle_dec x 1 then Ok (asin x) else Raise (ValueError MathDomain)
  else Raise (ValueError MathDomain).

(** [math.atan2(y, x)], the angle of the point [(x, y)] in (-PI, PI]. *)
Definition atan2 (y x : R) : R :=
  if Rlt_dec 0 x then atan (y / x)
  else if Rlt_dec x 0
       then if Rle_dec 0 y then atan (y / x) + PI else atan (y / x) - PI
       else if Rlt_dec 0 y then PI / 2
            else if Rlt_dec y 0 then - (PI / 2) else 0.

(** [math.copysign(x, y)]: the magnitude of [x] with the sign of [y]; a zero
    [y] counts as positive. *)
Definition copysign (x y : R) : R :=
  if Rle_dec 0 y then Rabs x else - Rabs x.

Definition degrees (x : R) : R := x * (180 / PI).
Definition radians (x : R) : R := x * (PI / 180).

(** The comparisons [x < y] and [x == y] as Python booleans. *)
Definition Rltb (x y : R) : bool := if Rlt_dec x y then true else false.
Definition Reqb (x y : R) : bool := if Req_dec_T x y then true else false.

(** ** Points and point sequences *)

(** A geographic point: latitude and longitude in degrees, and a height. *)
Record LatLon : Type := mkLatLon { lat : R; lon : R; height : R }.

(** The [points] argument of the polygon functions: the points in order, and
    whether the container is the NumPy array wrapper or a plain sequence. *)
Record PointSeq : Type := mkPoints { items : list LatLon; numpy2 : bool }.

(** What a point-valued function returns: an instance of the class given as
    [LatLon=...], or the 3-tuple [(lat, lon, height)] when [LatLon] is [None]. *)
Inductive point_result : Type :=
| AsLatLon (p : LatLon)
| AsTuple (a b h : R).

Definition point_lat (p : point_result) : R :=
  match p with AsLatLon q => lat q | AsTuple a _ _ => a end.
Definition point_lon (p : point_result) : R :=
  match p with AsLatLon q => lon q | AsTuple _ b _ => b end.

(** A 3-d vector ([vector3d.Vector3d]). *)
Record Vector3d : Type := mkVector3d { vx : R; vy : R; vz : R }.

(** ** Helpers of the imported modules, modelled from the specification *)

(** Modelled from the spec: [fmath.EPS], "a small epsilon", missing from the
    sources at hand; the machine epsilon of a double, [2^-52]. *)
Definition EPS : R := / 2 ^ 52.

(** Modelled from the spec: [utily.PI2], missing from the sources at hand;
    the constant 2 PI of "|S| - 2 PI". *)
Definition PI2 : R := 2 * PI.

(** Modelled from the spec: [utily.PI_2], missing from the sources at hand;
    the constant PI / 2 of "angle(g_i, n0) > 90 degrees". *)
Definition PI_2 : R := PI / 2.

(** The clamp of a number to [-1, 1]. *)
Definition clamp1 (x : R) : R := Rmax (-1) (Rmin 1 x).

(** Modelled from the spec: [fmath.acos1], missing from the sources at hand;
    "each argument clamped to [-1,1] before inverse cosine". *)
Definition acos1 (x : R) : R := acos (clamp1 x).

(** Modelled from the spec: [fmath.favg], missing from the sources at hand;
    the average of two values, weighted by [f] (0.5 by default: "the simple
    average of both coordinates"). *)
Definition favg (v1 v2 f : R) : R := v1 + f * (v2 - v1).

(** Modelled from the spec: [fmath.fsum], missing from the sources at hand;
    the "error-compensated" sum, on real numbers the sum. *)
Definition fsum (l : list R) : R := fold_right Rplus 0 l.

(** Modelled from the spec: [utily.tan_2], missing from the sources at hand;
    the "half-latitude tangent" tan(x / 2). *)
Definition tan_2 (x : R) : R := tan (x / 2).

(** Modelled from the spec: [LatLonBase.to2ab], missing from the sources at
    hand; latitude and longitude in radians. *)
Definition to2ab (p : LatLon) : R * R := (radians (lat p), radians (lon p)).

(** Modelled from the spec: [LatLonBase.to3xyz], missing from the sources at
    hand; the n-vector of a point, "a unit 3-D vector from the sphere's center
    to a point on its surface". *)
Definition to3xyz (p : LatLon) : R * R * R :=
  let '(a, b) := to2ab p in (cos a * cos b, cos a * sin b, sin a).

(** Modelled from the spec: [LatLonBase._havg], missing from the sources at
    hand; "height = average of both start heights". *)
Definition _havg (p other : LatLon) (f : R) : R := favg (height p) (height other) f.

(** Modelled from the spec: [points._imdex2], missing from the sources at
    hand; the index of the first point and of the first edge end: "closed or
    open per flag", a closed polygon starts with the edge from the last point
    to the first. *)
Definition _imdex2 (closed : bool) (n : nat) : Z * nat :=
  if closed then (Z.of_nat n - 1, 0%nat)%Z else (0%Z, 1%nat).

(** Modelled from the spec: [Vector3d.cross], missing from the sources at
    hand; the "cross product" of two vectors. *)
Definition cross (u v : Vector3d) : Vector3d :=
  mkVector3d (vy u * vz v - vz u * vy v)
             (vz u * vx v - vx u * vz v)
             (vx u * vy v - vy u * vx v).

(** Modelled from the spec: [Vector3d.dot], missing from the sources at hand;
    the "dot product" of two vectors. *)
Definition dot (u v : Vector3d) : R := vx u * vx v + vy u * vy v + vz u * vz v.

(** Modelled from the spec: [Vector3d.length], missing from the sources at
    hand; the "magnitude" of a vector. *)
Definition length3 (u : Vector3d) : R := sqrt (dot u u).

(** Modelled from the spec: [Vector3d.angleTo], missing from the sources at
    hand; the "angle-between (optionally signed relative to a reference
    vector)": the angle of the two vectors in [0, PI], 0 for vectors within
    EPS of parallel, and with [vSign] negative when the cross product points
    away from [vSign]. *)
Definition angleTo (u other : Vector3d) (vSign : option Vector3d) : R :=
  let x := cross u other in
  let s := length3 x in
  if Rlt_dec s EPS then 0
  else
    let s := match vSign with
             | Some v => if Rlt_dec (dot x v) 0 then - s else s
             | None => s
             end in
    atan2 s (dot u other).

(** ** Interfaces of the imported modules *)

(** [formy]: the angular primitives. *)
Class Formy : Type := {
  (** [bearing_(a1, b1, a2, b2, final, wrap)]: the bearing in radians. *)
  bearing_ : R -> R -> R -> R -> bool -> bool -> R;
  (** [haversine_(a2, a1, b21)]: the angular distance in radians. *)
  haversine_ : R -> R -> R -> R
}.

(** [utily]: wrapping and unrolling of angles. *)
Class Utily : Type := {
  degrees90 : R -> R;
  degrees180 : R -> R;
  iterNumpy2 : PointSeq -> bool;
  radiansPI2 : R -> R;
  (** [unrollPI(rad1, rad2, wrap)]: the longitude delta and the unrolled
      second longitude. *)
  unrollPI : R -> R -> bool -> R * R;
  wrapPI : R -> R
}.

(** [points]: the pole-enclosure test. *)
Class Points : Type := {
  ispolar : PointSeq -> bool -> bool
}.

(** [sphericalBase]: the base class of [LatLon]. *)
Class SphericalBase : Type := {
  (** [points2(points, closed)]: the number of points and the points. *)
  points2 : PointSeq -> bool -> result (nat * PointSeq);
  (** [vector3d.crosserrors()]. *)
  crosserrors : bool
}.

(** ** The functions of [sphericalTrigonometry.py] *)

Section SphericalTrigonometry.

Context {formy : Formy} {utily : Utily} {points_ : Points} {base : SphericalBase}.

(** [LatLon.toVector3d]; the cache [_v3d] holds the value computed here. *)
Definition toVector3d (self : LatLon) : Vector3d :=
  let '(x, y, z) := to3xyz self in mkVector3d x y z.

(** [LatLon.distanceTo(other, radius, wrap)]. *)
Definition distanceTo (self other : LatLon) (radius : R) (wrap : bool) : R :=
  let '(a1, b1) := to2ab self in
  let '(a2, b2) := to2ab other in
  let '(db, b2) := unrollPI b1 b2 wrap in
  let r := haversine_ a2 a1 db in
  r * radius.

(** [LatLon.initialBearingTo(other, wrap, raiser)]. *)
Definition initialBearingTo (self other : LatLon) (wrap raiser : bool) : result R :=
  let '(a1, b1) := to2ab self in
  let '(a2, b2) := to2ab other in
  if raiser && crosserrors && Rltb (Rmax (Rabs (a2 - a1)) (Rabs (b2 - b1))) EPS
  then Raise CrossError
  else Ok (degrees (bearing_ a1 b1 a2 b2 false wrap)).

(** [LatLon._trackDistanceTo3(start, end, radius, wrap)]. *)
Definition _trackDistanceTo3 (self start end_ : LatLon) (radius : R) (wrap : bool)
  : result (R * R * R) :=
  let r := radius in
  if Rlt_dec r EPS then Raise (ValueError RadiusInvalid)
  else
    r <- py_div (distanceTo start self r wrap) r ;;
    b <- initialBearingTo start self wrap false ;;
    let b := radians b in
    e <- initialBearingTo start end_ wrap false ;;
    let e := radians e in
    x <- py_asin (sin r * sin (b - e)) ;;
    Ok (r, x, e - b).

(** [LatLon.alongTrackDistanceTo(start, end, radius, wrap)]. *)
Definition alongTrackDistanceTo (self start end_ : LatLon) (radius : R) (wrap : bool)
  : result R :=
  ' (r, x, b) <- _trackDistanceTo3 self start end_ radius wrap ;;
  let cx := cos x in
  if Rlt_dec EPS (Rabs cx)
  then q <- py_div (cos r) cx ;;
       Ok (copysign (acos1 q) (cos b) * radius)
  else Ok 0.

(** [LatLon.crossTrackDistanceTo(start, end, radius, wrap)]. *)
Definition crossTrackDistanceTo (self start end_ : LatLon) (radius : R) (wrap : bool)
  : result R :=
  ' (_, x, _) <- _trackDistanceTo3 self start end_ radius wrap ;;
  Ok (x * radius).

(** [_destination2(a, b, r, t)].  The argument of [asin] is not clamped: on
    real numbers it is in [-1, 1]; as the floats of the code compute it, it can
    exceed 1 by a rounding error, and [asin] then raises. *)
Definition _destination2 (a b r t : R) : result (R * R) :=
  let ca := cos a in let cr := cos r in let ct := cos t in
  let sa := sin a in let sr := sin r in let st := sin t in
  a <- py_asin (ct * sr * ca + cr * sa) ;;
  let d := atan2 (st * sr * ca) (cr - sa * sin a) in
  Ok (degrees90 a, degrees180 (b + d)).

(** [LatLon.destination(distance, bearing, radius, height)]. *)
Definition destination (self : LatLon) (distance bearing radius : R) (height_ : option R)
  : result LatLon :=
  let '(a, b) := to2ab self in
  r <- py_div distance radius ;;
  let t := radians bearing in
  ' (a, b) <- _destination2 a b r t ;;
  let h := match height_ with None => height self | Some h => h end in
  Ok (mkLatLon a b h).

(** The function [intersection(start1, bearing1, start2, bearing2, height,
    wrap, LatLon)]. *)
Definition intersection (start1 : LatLon) (bearing1 : R) (start2 : LatLon) (bearing2 : R)
    (height_ : option R) (wrap : bool) (LatLon_ : option (R -> R -> R -> LatLon))
  : result point_result :=
  let '(a1, b1) := to2ab start1 in
  let '(a2, b2) := to2ab start2 in
  let '(db, b2) := unrollPI b1 b2 wrap in
  let r12 := haversine_ a2 a1 db in
  ' (a, b) <-
    (if Rlt_dec (Rabs r12) EPS
     then Ok (degrees (favg a1 a2 (1 / 2)), degrees (favg b1 b2 (1 / 2)))
     else
       let ca1 := cos a1 in let ca2 := cos a2 in let cr12 := cos r12 in
       let sa1 := sin a1 in let sa2 := sin a2 in let sr12 := sin r12 in
       let x1 := sr12 * ca1 in
       let x2 := sr12 * ca2 in
       if Rltb (Rabs x1) EPS || Rltb (Rabs x2) EPS
       then Raise (ValueError IntersectionParallel)
       else
         q1 <- py_div (sa2 - sa1 * cr12) x1 ;;
         q2 <- py_div (sa1 - sa2 * cr12) x2 ;;
         let t1 := acos1 q1 in
         let t2 := acos1 q2 in
         let '(t12, t21) :=
           if Rlt_dec 0 (sin db) then (t1, PI2 - t2) else (PI2 - t1, t2) in
         let t13 := radiansPI2 bearing1 in
         let t23 := radiansPI2 bearing2 in
         let x1 := wrapPI (t13 - t12) in
         let x2 := wrapPI (t21 - t23) in
         let sx1 := sin x1 in
         let sx2 := sin x2 in
         if Reqb sx1 0 && Reqb sx2 0
         then Raise (ValueError IntersectionInfinite)
         else
           let sx3 := sx1 * sx2 in
           if Rlt_dec sx3 0
           then Raise (ValueError IntersectionAmbiguous)
           else
             let cx1 := cos x1 in
             let cx2 := cos x2 in
             let x3 := acos1 (cr12 * sx3 - cx2 * cx1) in
             let r13 := atan2 (sr12 * sx3) (cx2 + cx1 * cos x3) in
             _destination2 a1 b1 r13 t13) ;;
  let h := match height_ with None => _havg start1 start2 (1 / 2) | Some h => h end in
  Ok (match LatLon_ with None => AsTuple a b h | Some C => AsLatLon (C a b h) end).

(** [LatLon.intersection(bearing, start2, bearing2, height, wrap)]. *)
Definition LatLon_intersection (self : LatLon) (bearing : R) (start2 : LatLon)
    (bearing2 : R) (height_ : option R) (wrap : bool) : result point_result :=
  intersection self bearing start2 bearing2 height_ wrap (Some mkLatLon).

(** [isPoleEnclosedBy(points, wrap=False)]; [None] stands for an omitted
    keyword argument. *)
Definition isPoleEnclosedBy (points : PointSeq) (wrap : option bool) : bool :=
  ispolar points (match wrap with Some w => w | None => false end).

(** The edge loop of [areaOf]: for each index the excess term of the edge
    ending there; [ta1] and [b1] are carried from the previous point.  This is
    the generator [_exs] of the NumPy branch... *)
Fixpoint _exs_from (points : PointSeq) (wrap : bool) (idx : list nat) (ta1 b1 : R)
  : result (list R) :=
  match idx with
  | [] => Ok []
  | i :: idx' =>
      p <- getitem (items points) (Z.of_nat i) ;;
      let '(a2, b2) := to2ab p in
      let '(db, b2) := unrollPI b1 b2 wrap in
      let ta2 := tan_2 a2 in
      let tdb := tan_2 db in
      rest <- _exs_from points wrap idx' ta2 b2 ;;
      Ok (atan2 (tdb * (ta1 + ta2)) (1 + ta1 * ta2) :: rest)
  end.

Definition _exs (n : nat) (points : PointSeq) (wrap : bool) : result (list R) :=
  p <- getitem (items points) (Z.of_nat n - 1) ;;
  let '(a1, b1) := to2ab p in
  _exs_from points wrap (range n) (tan_2 a1) b1.

(** ... and this is the loop of the other branch, which appends to the list
    [s]. *)
Fixpoint areaOf_loop (points : PointSeq) (wrap : bool) (idx : list nat) (s : list R)
    (ta1 b1 : R) : result (list R) :=
  match idx with
  | [] => Ok s
  | i :: idx' =>
      p <- getitem (items points) (Z.of_nat i) ;;
      let '(a2, b2) := to2ab p in
      let '(db, b2) := unrollPI b1 b2 wrap in
      let ta2 := tan_2 a2 in
      let tdb := tan_2 db in
      areaOf_loop points wrap idx'
        (s ++ [atan2 (tdb * (ta1 + ta2)) (1 + ta1 * ta2)]) ta2 b2
  end.

(** The function [areaOf(points, radius, wrap)]. *)
Definition areaOf (points : PointSeq) (radius : R) (wrap : bool) : result R :=
  ' (n, points) <- points2 points true ;;
  s <- (if iterNumpy2 points
        then
          xs <- _exs n points wrap ;;
          Ok (fsum xs * 2)
        else
          p <- getitem (items points) (Z.of_nat n - 1) ;;
          let '(a1, b1) := to2ab p in
          s <- areaOf_loop points wrap (range n) [] (tan_2 a1) b1 ;;
          Ok (fsum s * 2)) ;;
  let s := if isPoleEnclosedBy points None then Rabs s - PI2 else s in
  Ok (Rabs (s * radius ^ 2)).

(** The generator [_rads(n, points, closed)] of [perimeterOf]. *)
Fixpoint _rads_from (points : PointSeq) (wrap : bool) (idx : list nat) (a1 b1 : R)
  : result (list R) :=
  match idx with
  | [] => Ok []
  | i :: idx' =>
      p <- getitem (items points) (Z.of_nat i) ;;
      let '(a2, b2) := to2ab p in
      let '(db, b2) := unrollPI b1 b2 wrap in
      rest <- _rads_from points wrap idx' a2 b2 ;;
      Ok (haversine_ a2 a1 db :: rest)
  end.

Definition _rads (n : nat) (points : PointSeq) (closed wrap : bool)
  : result (list R) :=
  let '(i, m) := _imdex2 closed n in
  p <- getitem (items points) i ;;
  let '(a1, b1) := to2ab p in
  _rads_from points wrap (range2 m n) a1 b1.

(** The function [perimeterOf(points, closed, radius, wrap)]. *)
Definition perimeterOf (points : PointSeq) (closed : bool) (radius : R) (wrap : bool)
  : result R :=
  ' (n, points) <- points2 points closed ;;
  r <- (rs <- _rads n points closed wrap ;; Ok (fsum rs)) ;;
  Ok (r * radius).

(** [LatLon.isenclosedBy], the branch for NumPy arrays.  A loop returns
    [Some b] when the function returns [b] from inside it and [None] when it
    runs to its end. *)
Fixpoint isenclosedBy_numpy_loop (points : PointSeq) (n0 : Vector3d) (t0 : bool)
    (idx : list nat) (v1 gc1 : Vector3d) : result (option bool) :=
  match idx with
  | [] => Ok None
  | i :: idx' =>
      p <- getitem (items points) (Z.of_nat i) ;;
      let v2 := toVector3d p in
      let gc := cross v1 v2 in
      let v1 := v2 in
      let ti := Rltb PI_2 (angleTo gc n0 None) in
      if negb (eqb ti t0) then Ok (Some false)
      else if Rlt_dec (angleTo gc1 gc (Some n0)) 0
           then Raise (ValueError NonConvex)
           else isenclosedBy_numpy_loop points n0 t0 idx' v1 gc
  end.

Definition isenclosedBy_numpy (n0 : Vector3d) (n : nat) (points : PointSeq)
  : result (option bool) :=
  p1 <- getitem (items points) (Z.of_nat n - 1) ;;
  let v1 := toVector3d p1 in
  p2 <- getitem (items points) (Z.of_nat n - 2) ;;
  let v2 := toVector3d p2 in
  let gc1 := cross v2 v1 in
  let t0 := Rltb PI_2 (angleTo gc1 n0 None) in
  isenclosedBy_numpy_loop points n0 t0 (range n) v1 gc1.

(** [LatLon.isenclosedBy], the branch for plain sequences: the great-circle
    vector of each edge, ... *)
Fixpoint isenclosedBy_gc_loop (points : PointSeq) (idx : list nat) (gc : list Vector3d)
    (v1 : Vector3d) : result (list Vector3d) :=
  match idx with
  | [] => Ok gc
  | i :: idx' =>
      p <- getitem (items points) (Z.of_nat i) ;;
      let v2 := toVector3d p in
      isenclosedBy_gc_loop points idx' (gc ++ [cross v1 v2]) v2
  end.

(** ... the test that the point is on the same side of all edges, ... *)
Fixpoint isenclosedBy_side_loop (gc : list Vector3d) (n0 : Vector3d) (t0 : bool)
    (idx : list nat) : result (option bool) :=
  match idx with
  | [] => Ok None
  | i :: idx' =>
      g <- getitem gc (Z.of_nat i) ;;
      let ti := Rltb PI_2 (angleTo g n0 None) in
      if negb (eqb ti t0) then Ok (Some false)
      else isenclosedBy_side_loop gc n0 t0 idx'
  end.

(** ... and the test for a convex polygon. *)
Fixpoint isenclosedBy_convex_loop (n0 : Vector3d) (gcs : list Vector3d) (gc1 : Vector3d)
  : result (option bool) :=
  match gcs with
  | [] => Ok None
  | gc2 :: gcs' =>
      if Rlt_dec (angleTo gc1 gc2 (Some n0)) 0
      then Raise (ValueError NonConvex)
      else isenclosedBy_convex_loop n0 gcs' gc2
  end.

Definition isenclosedBy_plain (n0 : Vector3d) (n : nat) (points : PointSeq)
  : result (option bool) :=
  p <- getitem (items points) (Z.of_nat n - 1) ;;
  gc <- isenclosedBy_gc_loop points (range n) [] (toVector3d p) ;;
  g0 <- getitem gc 0 ;;
  let t0 := Rltb PI_2 (angleTo g0 n0 None) in
  r <- isenclosedBy_side_loop gc n0 t0 (range2 1 n) ;;
  match r with
  | Some b => Ok (Some b)
  | None =>
      gc1 <- getitem gc (Z.of_nat n - 1) ;;
      isenclosedBy_convex_loop n0 gc gc1
  end.

(** [LatLon.isenclosedBy(points)]. *)
Definition isenclosedBy (self : LatLon) (points : PointSeq) : result bool :=
  ' (n, points) <- points2 points true ;;
  let n0 := toVector3d self in
  r <- (if iterNumpy2 points
        then isenclosedBy_numpy n0 n points
        else isenclosedBy_plain n0 n points) ;;
  match r with
  | Some b => Ok b
  | None => Ok true
  end.

End SphericalTrigonometry.

(** ** The quantities the properties are stated with *)

Section Specification.

Context {formy : Formy} {utily : Utily} {points_ : Points} {base : SphericalBase}.

(** The angular separation [r12] of two start points: the haversine distance
    of their latitudes and of the (optionally unrolled) longitude delta. *)
Definition angular_separation (start1 start2 : LatLon) (wrap : bool) : R :=
  haversine_ (radians (lat start2)) (radians (lat start1))
    (fst (unrollPI (radians (lon start1)) (radians (lon start2)) wrap)).

(** The two triangle-side sines: sin(r12) times the cosine of the latitude of
    each start. *)
Definition triangle_side_sines (start1 start2 : LatLon) (wrap : bool) : R * R :=
  let r12 := angular_separation start1 start2 wrap in
  (sin r12 * cos (radians (lat start1)), sin r12 * cos (radians (lat start2))).

(** The bearings from each start towards the other one, resolved with the sign
    of sin(longitude delta). *)
Definition bearings_between (start1 start2 : LatLon) (wrap : bool) : R * R :=
  let a1 := radians (lat start1) in
  let a2 := radians (lat start2) in
  let db := fst (unrollPI (radians (lon start1)) (radians (lon start2)) wrap) in
  let r12 := angular_separation start1 start2 wrap in
  let '(x1, x2) := triangle_side_sines start1 start2 wrap in
  let t1 := acos (clamp1 ((sin a2 - sin a1 * cos r12) / x1)) in
  let t2 := acos (clamp1 ((sin a1 - sin a2 * cos r12) / x2)) in
  if Rlt_dec 0 (sin db) then (t1, 2 * PI - t2) else (2 * PI - t1, t2).

(** The sines of the two turn angles: each path's own bearing against the
    bearing towards the other start, wrapped into (-PI, PI]. *)
Definition turn_angle_sines (start1 : LatLon) (bearing1 : R) (start2 : LatLon)
    (bearing2 : R) (wrap : bool) : R * R :=
  let '(t12, t21) := bearings_between start1 start2 wrap in
  (sin (wrapPI (radiansPI2 bearing1 - t12)), sin (wrapPI (t21 - radiansPI2 bearing2))).

(** A point-valued result whose latitude went through [degrees90] and whose
    longitude went through [degrees180]. *)
Definition normalized_result (cls : option (R -> R -> R -> LatLon))
    (res : result point_result) : Prop :=
  exists a b h,
    res = Ok (match cls with
              | None => AsTuple (degrees90 a) (degrees180 b) h
              | Some C => AsLatLon (C (degrees90 a) (degrees180 b) h)
              end).

(** The edges of a polygon, each as (start, end), beginning with the closing
    edge from the last point to the first. *)
Fixpoint edges_from (prev : LatLon) (l : list LatLon) : list (LatLon * LatLon) :=
  match l with
  | [] => []
  | p :: l' => (prev, p) :: edges_from p l'
  end.

Definition polygon_edges (l : list LatLon) : list (LatLon * LatLon) :=
  match l with
  | [] => []
  | p :: _ => edges_from (last l p) l
  end.

(** The spherical excess of one edge, by half-latitude tangents;
    the longitude delta is unrolled when [wrap] is set. *)
Definition edge_excess (wrap : bool) (e : LatLon * LatLon) : R :=
  let '(p1, p2) := e in
  let phi1 := radians (lat p1) in
  let phi2 := radians (lat p2) in
  let dlam := fst (unrollPI (radians (lon p1)) (radians (lon p2)) wrap) in
  2 * atan2 (tan (dlam / 2) * (tan (phi1 / 2) + tan (phi2 / 2)))
            (1 + tan (phi1 / 2) * tan (phi2 / 2)).

(** The sum S of the edge excesses of a polygon. *)
Definition excess_sum (wrap : bool) (l : list LatLon) : R :=
  fsum (map (edge_excess wrap) (polygon_edges l)).

(** The term of one edge as the loop of [areaOf] adds it up: one half of the
    excess, with the helper [tan_2]. *)
Definition excess_term (wrap : bool) (e : LatLon * LatLon) : R :=
  let '(p1, p2) := e in
  let ta1 := tan_2 (radians (lat p1)) in
  let ta2 := tan_2 (radians (lat p2)) in
  let tdb := tan_2 (fst (unrollPI (radians (lon p1)) (radians (lon p2)) wrap)) in
  atan2 (tdb * (ta1 + ta2)) (1 + ta1 * ta2).

(** What [unrollPI] is taken to return: the longitude delta up to full turns,
    and the second longitude moved by the same turns. *)
Definition unrollPI_unrolls : Prop :=
  forall b1 b2 wrap,
    (exists k : Z, fst (unrollPI b1 b2 wrap) = b2 - b1 + 2 * IZR k * PI) /\
    snd (unrollPI b1 b2 wrap) = b1 + fst (unrollPI b1 b2 wrap).

(** [areaOf] as it would be with the pole test taking the wrap flag of
    [areaOf] itself. *)
Definition areaOf_same_wrap (points : PointSeq) (radius : R) (wrap : bool) : result R :=
  ' (n, points) <- points2 points true ;;
  let s := excess_sum wrap (items points) in
  let s := if isPoleEnclosedBy points (Some wrap) then Rabs s - 2 * PI else s in
  Ok (Rabs s * radius ^ 2).

(** The quantities of the track distances: the angular distance [r] from the
    start to the point, the initial bearings [b] to the point and [e] to the
    end, in radians, and the cross-track angle [x]. *)
Definition track_r (self start : LatLon) (wrap : bool) : R :=
  angular_separation start self wrap.
Definition track_bearing (start other : LatLon) (wrap : bool) : R :=
  bearing_ (radians (lat start)) (radians (lon start))
           (radians (lat other)) (radians (lon other)) false wrap.
Definition track_x (self start end_ : LatLon) (wrap : bool) : R :=
  asin (sin (track_r self start wrap)
        * sin (track_bearing start self wrap - track_bearing start end_ wrap)).

End Specification.

(** The sign of a number, a zero counting as positive as for [copysign]. *)
Definition sgn (x : R) : R := if Rle_dec 0 x then 1 else -1.

(** A point whose latitude is in [-90, 90] degrees. *)
Definition valid_lat (p : LatLon) : Prop := -90 <= lat p <= 90.

(** The points of a sequence in the opposite order. *)
Definition reversed (points : PointSeq) : PointSeq :=
  mkPoints (rev (items points)) (numpy2 points).

(** The sum of a function of the edges along a path that starts at [a]. *)
Definition path_sum (f : LatLon * LatLon -> R) (a : LatLon) (l : list LatLon) : R :=
  fsum (map f (edges_from a l)).

(** The great-circle vectors of the edges of a polygon of [n] points, as
    [isenclosedBy] computes them for a plain sequence. *)
Definition great_circles (points : PointSeq) (n : nat) : result (list Vector3d) :=
  p <- getitem (items points) (Z.of_nat n - 1) ;;
  isenclosedBy_gc_loop points (range n) [] (toVector3d p).

(** The side of an edge a point is on: [True] "if on the right". *)
Definition on_right (n0 g : Vector3d) : bool := Rltb PI_2 (angleTo g n0 None).

(** ** More functions of [sphericalTrigonometry.py] *)

(** [math.hypot(x, y)]. *)
Definition hypot (x y : R) : R := sqrt (x * x + y * y).

(** Modelled from the spec: the constructor of points,
    [self.classof(lat, lon, height=h)], missing from the sources at hand.  A
    "Point" has a "latitude in [-90, 90], longitude in (-180, 180], optional
    height": coordinates outside of these ranges make no point, and the
    constructor raises [RangeError].  It is written out in [intermediateTo],
    whose branch for points "too close" interpolates the angles and can leave
    the range; [destination] and [midpointTo] pass it the normalized
    coordinates of an [asin] or [atan2] in [-PI/2, PI/2] and of a longitude. *)
Definition classof (lat_ lon_ h : R) : result LatLon :=
  if Rltb lat_ (-90) || Rltb 90 lat_ || negb (Rltb (-180) lon_) || Rltb 180 lon_
  then Raise RangeError
  else Ok (mkLatLon lat_ lon_ h).

Section MoreMethods.

Context {formy : Formy} {utily : Utily} {points_ : Points} {base : SphericalBase}.

(** [LatLon.crossingParallels(other, lat, wrap)]; [Ok None] is the result
    [None], "great circle doesn't reach latitude". *)
Definition crossingParallels (self other : LatLon) (lat_ : R) (wrap : bool)
  : result (option (R * R)) :=
  let '(a1, b1) := to2ab self in
  let '(a2, b2) := to2ab other in
  let a := radians lat_ in
  let '(db, b2) := unrollPI b1 b2 wrap in
  let ca := cos a in let ca1 := cos a1 in let ca2 := cos a2 in let cdb := cos db in
  let sa := sin a in let sa1 := sin a1 in let sa2 := sin a2 in let sdb := sin db in
  let x := sa1 * ca2 * ca * sdb in
  let y := sa1 * ca2 * ca * cdb - ca1 * sa2 * ca in
  let z := ca1 * ca2 * sa * sdb in
  let h := hypot x y in
  if Rltb h EPS || Rltb h (Rabs z) then Ok None
  else
    let m := atan2 (- y) x + b1 in
    q <- py_div z h ;;
    let d := acos1 q in
    Ok (Some (degrees180 (m - d), degrees180 (m + d))).

(** [LatLon.greatCircle(bearing)]. *)
Definition greatCircle (self : LatLon) (bearing : R) : Vector3d :=
  let '(a, b) := to2ab self in
  let t := radians bearing in
  let ca := cos a in let cb := cos b in let ct := cos t in
  let sa := sin a in let sb := sin b in let st := sin t in
  mkVector3d (sb * ct - cb * sa * st)
             (- cb * ct - sb * sa * st)
             (ca * st).

(** [LatLon.bearingTo(other, wrap, raiser)], the deprecated name of
    [initialBearingTo]. *)
Definition bearingTo (self other : LatLon) (wrap raiser : bool) : result R :=
  initialBearingTo self other wrap raiser.

(** [LatLon.intermediateTo(other, fraction, height, wrap)]. *)
Definition intermediateTo (self other : LatLon) (fraction : R) (height_ : option R)
    (wrap : bool) : result LatLon :=
  let '(a1, b1) := to2ab self in
  let '(a2, b2) := to2ab other in
  let '(db, b2) := unrollPI b1 b2 wrap in
  let r := haversine_ a2 a1 db in
  let sr := sin r in
  ' (a, b) <-
    (if Rlt_dec EPS (Rabs sr)
     then
       let cb1 := cos b1 in let cb2 := cos b2 in
       let ca1 := cos a1 in let ca2 := cos a2 in
       let sb1 := sin b1 in let sb2 := sin b2 in
       let sa1 := sin a1 in let sa2 := sin a2 in
       A <- py_div (sin ((1 - fraction) * r)) sr ;;
       B <- py_div (sin (fraction * r)) sr ;;
       let x := A * ca1 * cb1 + B * ca2 * cb2 in
       let y := A * ca1 * sb1 + B * ca2 * sb2 in
       let z := A * sa1 + B * sa2 in
       Ok (atan2 z (hypot x y), atan2 y x)
     else
       Ok (favg a1 a2 fraction, favg b1 b2 fraction)) ;;
  let h := match height_ with
           | None => _havg self other fraction
           | Some h => h
           end in
  classof (degrees90 a) (degrees180 b) h.

(** [LatLon.isEnclosedBy(points)], the deprecated name of [isenclosedBy]. *)
Definition isEnclosedBy (self : LatLon) (points : PointSeq) : result bool :=
  isenclosedBy self points.

(** [LatLon.midpointTo(other, height, wrap)]. *)
Definition midpointTo (self other : LatLon) (height_ : option R) (wrap : bool)
  : LatLon :=
  let '(a1, b1) := to2ab self in
  let '(a2, b2) := to2ab other in
  let '(db, b2) := unrollPI b1 b2 wrap in
  let ca1 := cos a1 in let ca2 := cos a2 in let cdb := cos db in
  let sa1 := sin a1 in let sa2 := sin a2 in let sdb := sin db in
  let x := ca2 * cdb + ca1 in
  let y := ca2 * sdb in
  let a := atan2 (sa1 + sa2) (hypot x y) in
  let b := atan2 y x + b1 in
  let h := match height_ with
           | None => _havg self other (1 / 2)
           | Some h => h
           end in
  mkLatLon (degrees90 a) (degrees180 b) h.

(** The three numbers [x], [y] and [z] of [crossingParallels]. *)
Definition crossing_xyz (self other : LatLon) (lat_ : R) (wrap : bool) : R * R * R :=
  let a1 := radians (lat self) in
  let a2 := radians (lat other) in
  let a := radians lat_ in
  let db := fst (unrollPI (radians (lon self)) (radians (lon other)) wrap) in
  (sin a1 * cos a2 * cos a * sin db,
   sin a1 * cos a2 * cos a * cos db - cos a1 * sin a2 * cos a,
   cos a1 * cos a2 * sin a * sin db).

(** The normalizers leave the coordinates of a point as they are: they take
    its latitude and longitude in radians back to the ones in degrees, the
    longitude also after full turns. *)
Definition normalizers_keep (p : LatLon) : Prop :=
  degrees90 (radians (lat p)) = lat p
  /\ forall k : Z, degrees180 (radians (lon p) + 2 * IZR k * PI) = lon p.

(** What the normalizers are taken to return: [degrees90] a latitude in
    [-90, 90] for an angle in [-PI/2, PI/2], and [degrees180] a longitude in
    (-180, 180]. *)
Definition normalizers_in_range : Prop :=
  (forall a, - (PI / 2) <= a <= PI / 2 -> -90 <= degrees90 a <= 90)
  /\ forall b, -180 < degrees180 b <= 180.

(** [unrollPI] without wrapping: the difference, and the second longitude as
    it is. *)
Definition unrollPI_plain : Prop :=
  forall b1 b2, unrollPI b1 b2 false = (b2 - b1, b2).

End MoreMethods.

(** A point with a latitude in (-90, 90) and a longitude in (-180, 180]. *)
Definition off_pole (p : LatLon) : Prop :=
  -90 < lat p < 90 /\ -180 < lon p <= 180.

(** The points of a sequence, starting with the second one and ending with
    the first. *)
Definition rotated (points : PointSeq) : PointSeq :=
  mkPoints (tl (items points) ++ firstn 1 (items points)) (numpy2 points).

(** The great-circle vector of an edge, [v1.cross(v2)] in [isenclosedBy], and
    the vectors of the edges of a polygon. *)
Definition crossf (e : LatLon * LatLon) : Vector3d :=
  cross (toVector3d (fst e)) (toVector3d (snd e)).

Definition edge_circles (l : list LatLon) : list Vector3d :=
  map crossf (polygon_edges l).

(** The loop of the NumPy branch of [isenclosedBy] on the great-circle
    vectors of the edges. *)
Fixpoint numpy_on_circles (n0 : Vector3d) (t0 : bool) (gc1 : Vector3d)
    (gcs : list Vector3d) : result (option bool) :=
  match gcs with
  | [] => Ok None
  | gc :: gcs' =>
      if negb (eqb (on_right n0 gc) t0) then Ok (Some false)
      else if Rlt_dec (angleTo gc1 gc (Some n0)) 0
           then Raise (ValueError NonConvex)
           else numpy_on_circles n0 t0 gc gcs'
  end.

(** Each great-circle vector of a list with the one before it, the first one
    with [prev]: the pairs the test for a convex polygon looks at. *)
Fixpoint turns_from (prev : Vector3d) (l : list Vector3d)
  : list (Vector3d * Vector3d) :=
  match l with
  | [] => []
  | g :: l' => (prev, g) :: turns_from g l'
  end.

(** The point with the vector [n0] is on the same side of all great circles
    [gcs] ... *)
Definition same_side (n0 : Vector3d) (gcs : list Vector3d) : Prop :=
  forall g, In g gcs -> on_right n0 g = on_right n0 (hd n0 gcs).

(** ... and no angle from a great circle to the next one, nor from the last
    to the first, is negative, signed by [n0]. *)
Definition convex_turns (n0 : Vector3d) (gcs : list Vector3d) : Prop :=
  Forall (fun t => ~ angleTo (fst t) (snd t) (Some n0) < 0)
         (turns_from (last gcs n0) gcs).

(** ** An implementation of the interfaces *)

Module Model.

(** Modelled from the spec: the wrapping of an angle by multiples of [m] into
    the interval (hi - m, hi], as for "normalized into (-180, 180]". *)
Definition wrap_into (hi m x : R) : R := x - m * IZR (1 - up ((hi - x) / m)).

(** Modelled from the spec: the wrapping of an angle by multiples of [m] into
    the interval [0, m), as for "compass degrees in [0, 360)". *)
Definition wrap_from0 (m x : R) : R := x - m * IZR (up (x / m) - 1).

(** Modelled from the spec: [formy.haversine_], missing from the sources at
    hand; "a numerically stable formula for the angular distance between two
    points given their latitudes/longitudes". *)
Definition haversine_ (a2 a1 b21 : R) : R :=
  let hsin := fun rad => (sin (rad / 2)) ^ 2 in
  let h := hsin (a2 - a1) + cos a1 * cos a2 * hsin b21 in
  atan2 (sqrt h) (sqrt (1 - h)) * 2.

(** Modelled from the spec: [utily.wrapPI], missing from the sources at hand;
    an angle "wrapped into (-PI, PI]". *)
Definition wrapPI (x : R) : R := wrap_into PI PI2 x.

(** Modelled from the spec: [utily.radiansPI2], missing from the sources at
    hand; a bearing in "compass degrees in [0, 360)" as radians. *)
Definition radiansPI2 (deg : R) : R := wrap_from0 PI2 (radians deg).

(** Modelled from the spec: [utily.degrees90], missing from the sources at
    hand; "latitude outputs normalized to [-90, 90]": the angle in degrees,
    wrapped by full turns, which leaves an angle in [-90, 90] as it is. *)
Definition degrees90 (rad : R) : R := wrap_into 90 360 (degrees rad).

(** Modelled from the spec: [utily.degrees180], missing from the sources at
    hand; "longitude outputs normalized to (-180, 180]". *)
Definition degrees180 (rad : R) : R := wrap_into 180 360 (degrees rad).

(** Modelled from the spec: [utily.unrollPI], missing from the sources at
    hand; "unrolling adjusts a longitude difference to its minimal-magnitude
    equivalent", when [wrap] is set and the difference is more than PI; the
    second longitude is moved along. *)
Definition unrollPI (rad1 rad2 : R) (wrap : bool) : R * R :=
  let r := rad2 - rad1 in
  if wrap && Rltb PI (Rabs r)
  then let u := wrapPI r in (u, rad1 + u)
  else (r, rad2).

(** Modelled from the spec: [formy.bearing_], missing from the sources at
    hand; the initial (or final) bearing from the first point to the second
    as a compass angle in [0, 2 PI). *)
Definition bearing_ (a1 b1 a2 b2 : R) (final wrap : bool) : R :=
  let '(a1, b1, a2, b2, r) :=
    if final then (a2, b2, a1, b1, PI + PI2) else (a1, b1, a2, b2, PI2) in
  let db := fst (unrollPI b1 b2 wrap) in
  let x := cos a1 * sin a2 - sin a1 * cos a2 * cos db in
  let y := sin db * cos a2 in
  wrap_from0 PI2 (atan2 y x + r).

(** Modelled from the spec: [LatLonBase.points2], missing from the sources at
    hand; it fails with "fewer than the minimum required points (2 for a path,
    3 for a polygon)" and else gives the number of points and the points.
    The removal of a duplicate closing point is not modelled: the polygons
    evaluated below have distinct points. *)
Definition points2 (points : PointSeq) (closed : bool) : result (nat * PointSeq) :=
  let n := length (items points) in
  if (n <? (if closed then 3 else 2))%nat
  then Raise (ValueError TooFewPoints)
  else Ok (n, points).

#[export] Instance formy : Formy := Build_Formy bearing_ haversine_.

#[export] Instance utily : Utily :=
  Build_Utily degrees90 degrees180 numpy2 radiansPI2 unrollPI wrapPI.

#[export] Instance base : SphericalBase := Build_SphericalBase points2 true.

(** Two stand-ins for [points.ispolar], which is missing from the sources at
    hand: one that finds no pole in any polygon, for polygons that enclose
    none, ... *)
Definition no_pole : Points := {| ispolar := fun _ _ => false |}.

(** ... and one that answers with the wrap flag it is called with. *)
Definition pole_iff_wrap : Points := {| ispolar := fun _ wrap => wrap |}.

End Model.

(** ** Points and polygons to run the code on *)

(** 1 / sqrt 2, the sine and cosine of 45 degrees. *)
Definition rt2 : R := 1 / sqrt 2.

(** sqrt 3, twice the cosine of 30 degrees. *)
Definition rt3 : R := sqrt 3.

(** The polygon of the example of [areaOf] and [isenclosedBy]. *)
Definition square : list LatLon :=
  [mkLatLon 45 1 0; mkLatLon 45 2 0; mkLatLon 46 2 0; mkLatLon 46 1 0].

(** Three points on the equator. *)
Definition equator : list LatLon :=
  [mkLatLon 0 0 0; mkLatLon 0 10 0; mkLatLon 0 20 0].

(** A polygon with a dent: the eighth of the sphere between the equator, the
    meridians of 0 and 90 degrees east and the north pole, with its edge from
    (0, 90) to the pole pushed in to (45, 45); and a point outside of it. *)
Definition dented : list LatLon :=
  [mkLatLon 45 45 0; mkLatLon 90 0 0; mkLatLon 0 0 0; mkLatLon 0 90 0].
Definition outside : LatLon := mkLatLon 30 (-30) 0.

(** The great-circle vectors of the four edges of [dented], the first one
    ending at its first point, and the vector of [outside]. *)
Definition gBM : Vector3d := mkVector3d rt2 0 (- (1 / 2)).
Definition gMD : Vector3d := mkVector3d (1 / 2) (- (1 / 2)) 0.
Definition gDA : Vector3d := mkVector3d 0 1 0.
Definition gAB : Vector3d := mkVector3d 0 0 1.
Definition n0q : Vector3d := mkVector3d (3 / 4) (- (rt3 / 4)) (1 / 2).

(** * Properties *)

(** ** Python operations that do not raise *)

Lemma EPS_pos : 0 < EPS.
Proof. unfold EPS. apply Rinv_0_lt_compat, pow_lt. lra. Qed.

Lemma py_div_ok (x y : R) : y <> 0 -> py_div x y = Ok (x / y).
Proof. intros Hy. unfold py_div. destruct (Req_dec_T y 0); [contradiction | reflexivity]. Qed.

Lemma py_asin_ok (x : R) : -1 <= x <= 1 -> py_asin x = Ok (asin x).
Proof.
  intros [Hl Hu]. unfold py_asin.
  destruct (Rle_dec (-1) x); [| contradiction].
  destruct (Rle_dec x 1); [reflexivity | contradiction].
Qed.

Lemma Rltb_true (x y : R) : Rltb x y = true <-> x < y.
Proof. unfold Rltb. destruct (Rlt_dec x y); split; intros; try easy. Qed.

Lemma Rltb_false (x y : R) : Rltb x y = false <-> ~ x < y.
Proof. unfold Rltb. destruct (Rlt_dec x y); split; intros; try easy. Qed.

Lemma Reqb_true (x y : R) : Reqb x y = true <-> x = y.
Proof. unfold Reqb. destruct (Req_dec_T x y); split; intros; try easy. Qed.

Section Intersection.

Context {formy : Formy} {utily : Utily} {points_ : Points} {base : SphericalBase}.

(** For starts that are not coincident a point that [intersection] returns
    went through [degrees90] and [degrees180]. *)
Lemma intersection_not_coincident_normalized
    start1 bearing1 start2 bearing2 height_ wrap cls :
  EPS <= angular_separation start1 start2 wrap ->
  forall p, intersection start1 bearing1 start2 bearing2 height_ wrap cls = Ok p ->
    normalized_result cls
      (intersection start1 bearing1 start2 bearing2 height_ wrap cls).
Proof.
  intros Hr p. unfold normalized_result, intersection, angular_separation in *.
  unfold to2ab.
  destruct (unrollPI (radians (lon start1)) (radians (lon start2)) wrap) as [db b2].
  cbn [fst] in Hr.
  set (r12 := haversine_ (radians (lat start2)) (radians (lat start1)) db) in *.
  destruct (Rlt_dec (Rabs r12) EPS) as [Hc | _];
    [exfalso; pose proof (Rle_abs r12); lra |].
  cbv zeta.
  destruct (Rltb _ EPS || Rltb _ EPS); [cbn [bind]; discriminate |].
  destruct (py_div _ _) as [q1 | e]; cbn [bind]; [| discriminate].
  destruct (py_div _ _) as [q2 | e]; cbn [bind]; [| discriminate].
  destruct (if Rlt_dec 0 (sin db) then _ else _) as [t12 t21].
  destruct (Reqb _ 0 && Reqb _ 0); [cbn [bind]; discriminate |].
  destruct (Rlt_dec _ 0); [cbn [bind]; discriminate |].
  unfold _destination2.
  destruct (py_asin _) as [a | e]; cbn [bind]; [| discriminate].
  intros _. do 3 eexists. reflexivity.
Qed.

End Intersection.

(** ** Polygons: the edge loops *)

(** *** Sequences and indices *)

Lemma getitem_nth {A : Type} (l : list A) (i : nat) (a : A) :
  nth_error l i = Some a -> getitem l (Z.of_nat i) = Ok a.
Proof.
  intros H. unfold getitem.
  destruct (Z.of_nat i <? 0)%Z eqn:E; [apply Z.ltb_lt in E; lia |].
  rewrite E, Nat2Z.id, H. reflexivity.
Qed.

Lemma nth_error_last {A : Type} (l : list A) (d : A) :
  l <> [] -> nth_error l (length l - 1) = Some (last l d).
Proof.
  intros Hl. destruct (exists_last Hl) as [l' [a ->]].
  rewrite last_last, length_app, nth_error_app2; cbn [length]; [| lia].
  replace (length l' + 1 - 1 - length l')%nat with 0%nat by lia. reflexivity.
Qed.

Lemma getitem_last {A : Type} (l : list A) (d : A) :
  l <> [] -> getitem l (Z.of_nat (length l) - 1) = Ok (last l d).
Proof.
  intros Hl.
  assert (Hn : (1 <= length l)%nat) by (destruct l; [congruence | cbn; lia]).
  replace (Z.of_nat (length l) - 1)%Z with (Z.of_nat (length l - 1)) by lia.
  apply getitem_nth, nth_error_last, Hl.
Qed.

Lemma skipn_nth_cons {A : Type} (l : list A) (i : nat) (a : A) :
  nth_error l i = Some a -> skipn i l = a :: skipn (S i) l.
Proof.
  revert i. induction l as [| b l IH]; intros [| i] H; cbn in *; try discriminate.
  - injection H as ->. reflexivity.
  - apply IH, H.
Qed.

Lemma nth_error_lt {A : Type} (l : list A) (i : nat) :
  (i < length l)%nat -> exists a, nth_error l i = Some a.
Proof.
  intros H. destruct (nth_error l i) eqn:E; [eauto |].
  apply nth_error_None in E. lia.
Qed.

(** *** The tangent and full turns *)

Lemma tan_plus_PI (x : R) : tan (x + PI) = tan x.
Proof.
  unfold tan. rewrite neg_sin, neg_cos. unfold Rdiv. rewrite Rinv_opp. ring.
Qed.

Lemma tan_plus_nat_PI (x : R) (n : nat) : tan (x + INR n * PI) = tan x.
Proof.
  induction n as [| n IH].
  - cbn [INR]. f_equal. ring.
  - rewrite S_INR. replace (x + (INR n + 1) * PI) with (x + INR n * PI + PI) by ring.
    rewrite tan_plus_PI. exact IH.
Qed.

Lemma tan_plus_Z_PI (x : R) (k : Z) : tan (x + IZR k * PI) = tan x.
Proof.
  destruct (Z_le_gt_dec 0 k) as [Hk | Hk].
  - rewrite <- (Z2Nat.id k Hk), <- INR_IZR_INZ. apply tan_plus_nat_PI.
  - rewrite <- (tan_plus_nat_PI (x + IZR k * PI) (Z.to_nat (- k))).
    f_equal. rewrite INR_IZR_INZ, Z2Nat.id by lia. rewrite opp_IZR. ring.
Qed.

Lemma fsum_app (l1 l2 : list R) : fsum (l1 ++ l2) = fsum l1 + fsum l2.
Proof.
  unfold fsum. induction l1 as [| x l1 IH]; cbn; [ring | rewrite IH; ring].
Qed.

Lemma fsum_map_scale {A : Type} (c : R) (f : A -> R) (l : list A) :
  fsum (map (fun a => c * f a) l) = c * fsum (map f l).
Proof.
  unfold fsum. induction l as [| a l IH]; cbn; [ring | rewrite IH; ring].
Qed.

Section Polygons.

Context {formy : Formy} {utily : Utily} {points_ : Points} {base : SphericalBase}.

Lemma edge_excess_term (wrap : bool) (e : LatLon * LatLon) :
  edge_excess wrap e = 2 * excess_term wrap e.
Proof. destruct e as [p1 p2]. reflexivity. Qed.

(** A longitude carried along the unrolled track differs from the raw one by
    full turns, which the half-angle tangent of a delta does not see. *)
Lemma tan_2_delta_carried (b1 raw b2 : R) (wrap : bool) :
  unrollPI_unrolls ->
  (exists j : Z, b1 = raw + 2 * IZR j * PI) ->
  tan_2 (fst (unrollPI b1 b2 wrap)) = tan_2 (fst (unrollPI raw b2 wrap)).
Proof.
  intros Hu [j Hj].
  destruct (Hu b1 b2 wrap) as [[k Hk] _].
  destruct (Hu raw b2 wrap) as [[k' Hk'] _].
  rewrite Hk, Hk', Hj. unfold tan_2.
  replace ((b2 - (raw + 2 * IZR j * PI) + 2 * IZR k * PI) / 2)
    with ((b2 - raw) / 2 + IZR (k - j) * PI) by (rewrite minus_IZR; field).
  replace ((b2 - raw + 2 * IZR k' * PI) / 2)
    with ((b2 - raw) / 2 + IZR k' * PI) by field.
  rewrite !tan_plus_Z_PI. reflexivity.
Qed.

Lemma _exs_from_edges (points : PointSeq) (wrap : bool) :
  unrollPI_unrolls ->
  forall (k i : nat) (prev : LatLon) (ta1 b1 : R),
    (i + k = length (items points))%nat ->
    ta1 = tan_2 (radians (lat prev)) ->
    (exists j : Z, b1 = radians (lon prev) + 2 * IZR j * PI) ->
    _exs_from points wrap (seq i k) ta1 b1
    = Ok (map (excess_term wrap) (edges_from prev (skipn i (items points)))).
Proof.
  intros Hu. induction k as [| k IH]; intros i prev ta1 b1 Hlen Hta Hb.
  - cbn [seq _exs_from]. rewrite skipn_all2 by lia. reflexivity.
  - cbn [seq _exs_from].
    destruct (nth_error_lt (items points) i ltac:(lia)) as [p Hp].
    rewrite (getitem_nth _ _ _ Hp), (skipn_nth_cons _ _ _ Hp).
    cbn [bind edges_from map]. unfold to2ab.
    destruct (unrollPI b1 (radians (lon p)) wrap) as [db b2] eqn:E.
    assert (Hdb : db = fst (unrollPI b1 (radians (lon p)) wrap)) by (rewrite E; reflexivity).
    assert (Hb2 : b2 = snd (unrollPI b1 (radians (lon p)) wrap)) by (rewrite E; reflexivity).
    rewrite (IH (S i) p (tan_2 (radians (lat p))) b2); [| lia | reflexivity |].
    + cbn [bind]. do 2 f_equal. unfold excess_term.
      rewrite Hdb, (tan_2_delta_carried b1 (radians (lon prev))) by assumption.
      rewrite Hta. reflexivity.
    + destruct (Hu b1 (radians (lon p)) wrap) as [[k' Hk'] Hs].
      exists k'. rewrite Hb2, Hs, Hk'. ring.
Qed.

Lemma areaOf_loop_exs (points : PointSeq) (wrap : bool) (idx : list nat) :
  forall (s : list R) (ta1 b1 : R),
    areaOf_loop points wrap idx s ta1 b1
    = (xs <- _exs_from points wrap idx ta1 b1 ;; Ok (s ++ xs)).
Proof.
  induction idx as [| i idx IH]; intros s ta1 b1; cbn [areaOf_loop _exs_from bind].
  - rewrite app_nil_r. reflexivity.
  - destruct (getitem (items points) (Z.of_nat i)) as [p | e]; cbn [bind]; [| reflexivity].
    destruct (to2ab p) as [a2 b2].
    destruct (unrollPI b1 b2 wrap) as [db b2'].
    rewrite IH.
    destruct (_exs_from points wrap idx (tan_2 a2) b2') as [xs | e]; cbn [bind];
      [| reflexivity].
    rewrite <- app_assoc. reflexivity.
Qed.

(** The terms of the edge loop of [areaOf], started as in the code from the
    last point, are the terms of the polygon's edges. *)
Lemma _exs_polygon (n : nat) (points : PointSeq) (wrap : bool) :
  unrollPI_unrolls ->
  n = length (items points) -> (1 <= n)%nat ->
  _exs n points wrap = Ok (map (excess_term wrap) (polygon_edges (items points))).
Proof.
  intros Hu Hn H1. unfold _exs.
  destruct (items points) as [| p l] eqn:El; [cbn in Hn; lia |].
  rewrite Hn, (getitem_last (p :: l) p) by discriminate.
  cbn [bind]. unfold to2ab, range, range2. rewrite Nat.sub_0_r.
  rewrite (_exs_from_edges points wrap Hu (length (p :: l)) 0
             (last (p :: l) p) _ _).
  - rewrite El. reflexivity.
  - rewrite El. lia.
  - reflexivity.
  - exists 0%Z. ring.
Qed.

(** The sum [s] of [areaOf], on both branches. *)
Lemma areaOf_sum (n : nat) (points : PointSeq) (wrap : bool) :
  unrollPI_unrolls ->
  n = length (items points) -> (1 <= n)%nat ->
  (if iterNumpy2 points
   then xs <- _exs n points wrap ;; Ok (fsum xs * 2)
   else
     p <- getitem (items points) (Z.of_nat n - 1) ;;
     let '(a1, b1) := to2ab p in
     s <- areaOf_loop points wrap (range n) [] (tan_2 a1) b1 ;;
     Ok (fsum s * 2))
  = Ok (excess_sum wrap (items points)).
Proof.
  intros Hu Hn H1.
  assert (Hs : forall xs, xs = map (excess_term wrap) (polygon_edges (items points)) ->
                 fsum xs * 2 = excess_sum wrap (items points)).
  { intros xs ->. unfold excess_sum.
    rewrite (map_ext _ _ (edge_excess_term wrap)).
    rewrite (fsum_map_scale 2 (excess_term wrap)). ring. }
  pose proof (_exs_polygon n points wrap Hu Hn H1) as He.
  destruct (iterNumpy2 points).
  - rewrite He. cbn [bind]. f_equal. apply Hs. reflexivity.
  - unfold _exs in He.
    destruct (getitem (items points) (Z.of_nat n - 1)) as [p | e]; cbn [bind] in *;
      [| discriminate].
    destruct (to2ab p) as [a1 b1].
    rewrite areaOf_loop_exs, He. cbn [bind app]. f_equal. apply Hs. reflexivity.
Qed.

(** The value of [areaOf] on points that [points2] accepts. *)
Lemma areaOf_value (points : PointSeq) (radius : R) (wrap : bool)
    (n : nat) (pts : PointSeq) :
  unrollPI_unrolls ->
  points2 points true = Ok (n, pts) ->
  n = length (items pts) -> (1 <= n)%nat ->
  areaOf points radius wrap
  = Ok (Rabs ((if ispolar pts false
               then Rabs (excess_sum wrap (items pts)) - 2 * PI
               else excess_sum wrap (items pts)) * radius ^ 2)).
Proof.
  intros Hu Hp Hn H1. unfold areaOf. rewrite Hp. cbn [bind].
  rewrite (areaOf_sum n pts wrap Hu Hn H1). cbn [bind].
  unfold isPoleEnclosedBy, PI2. reflexivity.
Qed.

Lemma Rabs_mult_sqr (s r : R) : Rabs (s * r ^ 2) = Rabs s * r ^ 2.
Proof.
  rewrite Rabs_mult. f_equal. apply Rabs_pos_eq. apply pow2_ge_0.
Qed.

(** C2.  For every polygon of at least 3 points and every radius, [areaOf]
    returns |S'| * radius^2, where S is the compensated sum of the edge
    excesses 2 * atan2(tan(dlam/2) * (tan(phi1/2) + tan(phi2/2)),
    1 + tan(phi1/2) * tan(phi2/2)) and S' is |S| - 2 PI when the pole test
    finds a pole inside the polygon and S otherwise; the area is not
    negative. *)
Theorem areaOf_formula (points : PointSeq) (radius : R) (wrap : bool)
    (n : nat) (pts : PointSeq) :
  unrollPI_unrolls ->
  points2 points true = Ok (n, pts) ->
  n = length (items pts) -> (3 <= n)%nat ->
  let S := excess_sum wrap (items pts) in
  let S' := if ispolar pts false then Rabs S - 2 * PI else S in
  areaOf points radius wrap = Ok (Rabs S' * radius ^ 2)
  /\ 0 <= Rabs S' * radius ^ 2.
Proof.
  intros Hu Hp Hn H3 S S'. split.
  - rewrite (areaOf_value points radius wrap n pts Hu Hp Hn) by lia.
    fold S. fold S'. rewrite Rabs_mult_sqr. reflexivity.
  - apply Rmult_le_pos; [apply Rabs_pos | apply pow2_ge_0].
Qed.

End Polygons.

(** ** Track distances and the radius *)

Lemma radians_degrees (x : R) : radians (degrees x) = x.
Proof. unfold radians, degrees. field. apply PI_neq0. Qed.

Lemma sin_mult_sin_bound (x y : R) : -1 <= sin x * sin y <= 1.
Proof.
  pose proof (SIN_bound x). pose proof (SIN_bound y). split; nra.
Qed.

Lemma copysign_sgn (x y : R) : 0 <= x -> copysign x y = sgn y * x.
Proof.
  intros Hx. unfold copysign, sgn. rewrite (Rabs_pos_eq x Hx).
  destruct (Rle_dec 0 y); ring.
Qed.

Lemma acos1_nonneg (x : R) : 0 <= acos1 x.
Proof. unfold acos1. apply acos_bound. Qed.

Section Tracks.

Context {formy : Formy} {utily : Utily} {points_ : Points} {base : SphericalBase}.

Lemma initialBearingTo_radians (start other : LatLon) (wrap : bool) :
  initialBearingTo start other wrap false
  = Ok (degrees (track_bearing start other wrap)).
Proof. reflexivity. Qed.

Lemma distanceTo_separation (start self : LatLon) (radius : R) (wrap : bool) :
  distanceTo start self radius wrap = track_r self start wrap * radius.
Proof.
  unfold distanceTo, track_r, angular_separation, to2ab.
  destruct (unrollPI (radians (lon start)) (radians (lon self)) wrap). reflexivity.
Qed.

(** The three values of [_trackDistanceTo3] for a radius that passes its
    check. *)
Lemma _trackDistanceTo3_value (self start end_ : LatLon) (radius : R) (wrap : bool) :
  EPS <= radius ->
  _trackDistanceTo3 self start end_ radius wrap
  = Ok (track_r self start wrap, track_x self start end_ wrap,
        track_bearing start end_ wrap - track_bearing start self wrap).
Proof.
  intros Hr. pose proof EPS_pos as He. unfold _trackDistanceTo3.
  destruct (Rlt_dec radius EPS); [lra |].
  rewrite distanceTo_separation, py_div_ok by lra. cbn [bind].
  rewrite !initialBearingTo_radians. cbn [bind].
  rewrite !radians_degrees.
  replace (track_r self start wrap * radius / radius)
    with (track_r self start wrap) by (field; lra).
  rewrite py_asin_ok by apply sin_mult_sin_bound.
  reflexivity.
Qed.

Lemma _trackDistanceTo3_radius (self start end_ : LatLon) (radius : R) (wrap : bool) :
  radius < EPS ->
  _trackDistanceTo3 self start end_ radius wrap = Raise (ValueError RadiusInvalid).
Proof.
  intros Hr. unfold _trackDistanceTo3.
  destruct (Rlt_dec radius EPS); [reflexivity | contradiction].
Qed.

Lemma alongTrackDistanceTo_value (self start end_ : LatLon) (radius : R)
    (wrap : bool) :
  EPS <= radius ->
  let r := track_r self start wrap in
  let b := track_bearing start self wrap in
  let e := track_bearing start end_ wrap in
  let x := asin (sin r * sin (b - e)) in
  alongTrackDistanceTo self start end_ radius wrap
  = Ok (if Rle_dec (Rabs (cos x)) EPS then 0
        else sgn (cos (b - e)) * acos (clamp1 (cos r / cos x)) * radius).
Proof.
  intros Hr r b e x. pose proof EPS_pos as He.
  unfold alongTrackDistanceTo.
  rewrite _trackDistanceTo3_value by assumption. cbn [bind].
  unfold track_x. fold r b e. fold x.
  destruct (Rlt_dec EPS (Rabs (cos x))) as [Hc | Hc];
    destruct (Rle_dec (Rabs (cos x)) EPS) as [Hc' | Hc']; try lra.
  - rewrite py_div_ok.
    + cbn [bind]. rewrite copysign_sgn by apply acos1_nonneg.
      replace (e - b) with (- (b - e)) by ring. rewrite cos_neg. reflexivity.
    + intros E. rewrite E, Rabs_R0 in Hc. lra.
  - reflexivity.
Qed.

(** C3.  For every point, path (start, end) and radius of at least EPS, with
    r the haversine angular distance from the start to the point, b and e the
    initial bearings from the start to the point and to the end, and
    x = asin(sin r * sin(b - e)): [alongTrackDistanceTo] returns
    sign(cos(b - e)) * acos(clamp(cos r / cos x, -1, 1)) * radius, except that
    the result is 0 when |cos x| is within EPS of zero.  The sign is that of
    [copysign], for which a zero counts as positive. *)
Theorem alongTrackDistanceTo_formula (self start end_ : LatLon) (radius : R)
    (wrap : bool) :
  EPS <= radius ->
  let r := track_r self start wrap in
  let b := track_bearing start self wrap in
  let e := track_bearing start end_ wrap in
  let x := asin (sin r * sin (b - e)) in
  alongTrackDistanceTo self start end_ radius wrap
  = Ok (if Rle_dec (Rabs (cos x)) EPS then 0
        else sgn (cos (b - e)) * acos (clamp1 (cos r / cos x)) * radius).
Proof. exact (alongTrackDistanceTo_value self start end_ radius wrap). Qed.

Lemma crossTrackDistanceTo_value (self start end_ : LatLon) (radius : R) (wrap : bool) :
  EPS <= radius ->
  crossTrackDistanceTo self start end_ radius wrap
  = Ok (track_x self start end_ wrap * radius).
Proof.
  intros Hr. unfold crossTrackDistanceTo.
  rewrite _trackDistanceTo3_value by assumption. reflexivity.
Qed.

Lemma _rads_from_returns (points : PointSeq) (wrap : bool) :
  forall (k i : nat) (a1 b1 : R),
    (i + k <= length (items points))%nat ->
    exists rs, _rads_from points wrap (seq i k) a1 b1 = Ok rs.
Proof.
  induction k as [| k IH]; intros i a1 b1 Hlen.
  - exists []. reflexivity.
  - cbn [seq _rads_from].
    destruct (nth_error_lt (items points) i ltac:(lia)) as [p Hp].
    rewrite (getitem_nth _ _ _ Hp). cbn [bind].
    destruct (to2ab p) as [a2 b2]. destruct (unrollPI b1 b2 wrap) as [db b2'].
    destruct (IH (S i) a2 b2' ltac:(lia)) as [rs ->]. cbn [bind].
    eexists. reflexivity.
Qed.

Lemma _rads_returns (n : nat) (points : PointSeq) (closed wrap : bool) :
  n = length (items points) -> (1 <= n)%nat ->
  exists rs, _rads n points closed wrap = Ok rs.
Proof.
  intros Hn H1. unfold _rads, _imdex2.
  assert (Hne : items points <> []).
  { intros E. rewrite E in Hn. cbn in Hn. lia. }
  destruct closed.
  - rewrite Hn, (getitem_last _ (mkLatLon 0 0 0)) by assumption. cbn [bind].
    destruct (to2ab _) as [a1 b1]. unfold range2.
    apply _rads_from_returns. lia.
  - destruct (nth_error_lt (items points) 0 ltac:(lia)) as [p Hp].
    change 0%Z with (Z.of_nat 0). rewrite (getitem_nth _ 0 _ Hp). cbn [bind].
    destruct (to2ab p) as [a1 b1]. unfold range2.
    apply _rads_from_returns. lia.
Qed.

(** [perimeterOf] returns a sum of edge lengths times the radius, whatever the
    radius. *)
Lemma perimeterOf_value (points : PointSeq) (closed : bool) (wrap : bool)
    (n : nat) (pts : PointSeq) :
  points2 points closed = Ok (n, pts) ->
  n = length (items pts) -> (1 <= n)%nat ->
  exists rs, forall radius,
    perimeterOf points closed radius wrap = Ok (fsum rs * radius).
Proof.
  intros Hp Hn H1.
  destruct (_rads_returns n pts closed wrap Hn H1) as [rs Hrs].
  exists rs. intros radius. unfold perimeterOf. rewrite Hp. cbn [bind].
  rewrite Hrs. reflexivity.
Qed.

Lemma _exs_from_returns (points : PointSeq) (wrap : bool) :
  forall (k i : nat) (ta1 b1 : R),
    (i + k <= length (items points))%nat ->
    exists xs, _exs_from points wrap (seq i k) ta1 b1 = Ok xs.
Proof.
  induction k as [| k IH]; intros i ta1 b1 Hlen.
  - exists []. reflexivity.
  - cbn [seq _exs_from].
    destruct (nth_error_lt (items points) i ltac:(lia)) as [p Hp].
    rewrite (getitem_nth _ _ _ Hp). cbn [bind].
    destruct (to2ab p) as [a2 b2]. destruct (unrollPI b1 b2 wrap) as [db b2'].
    destruct (IH (S i) (tan_2 a2) b2' ltac:(lia)) as [xs ->]. cbn [bind].
    eexists. reflexivity.
Qed.

(** [areaOf] returns a number for every radius, whatever [unrollPI] does. *)
Lemma areaOf_returns (points : PointSeq) (wrap : bool) (n : nat) (pts : PointSeq) :
  points2 points true = Ok (n, pts) ->
  n = length (items pts) -> (1 <= n)%nat ->
  exists s, forall radius, areaOf points radius wrap = Ok (Rabs (s * radius ^ 2)).
Proof.
  intros Hp Hn H1.
  assert (Hne : items pts <> []).
  { intros E. rewrite E in Hn. cbn in Hn. lia. }
  assert (Hs : exists s,
             (if iterNumpy2 pts
              then xs <- _exs n pts wrap ;; Ok (fsum xs * 2)
              else
                p <- getitem (items pts) (Z.of_nat n - 1) ;;
                let '(a1, b1) := to2ab p in
                s <- areaOf_loop pts wrap (range n) [] (tan_2 a1) b1 ;;
                Ok (fsum s * 2)) = Ok s).
  { unfold _exs.
    rewrite Hn, (getitem_last _ (mkLatLon 0 0 0)) by assumption.
    cbn [bind].
    destruct (to2ab (last (items pts) (mkLatLon 0 0 0))) as [a1 b1].
    unfold range, range2.
    destruct (_exs_from_returns pts wrap (length (items pts) - 0) 0 (tan_2 a1) b1
                ltac:(lia)) as [xs Hxs].
    destruct (iterNumpy2 pts).
    - rewrite Hxs. cbn [bind]. eexists. reflexivity.
    - rewrite areaOf_loop_exs, Hxs. cbn [bind]. eexists. reflexivity. }
  destruct Hs as [s Hs].
  exists (if isPoleEnclosedBy pts None then Rabs s - PI2 else s).
  intros radius. unfold areaOf. rewrite Hp. cbn [bind]. rewrite Hs. reflexivity.
Qed.

(** C6, as the code has it.  [alongTrackDistanceTo] and
    [crossTrackDistanceTo] fail with the radius [ValueError] exactly when the
    radius is less than EPS (a radius equal to EPS is accepted).  [areaOf]
    and [perimeterOf] do not check the radius: on points that [points2]
    accepts they return a number for every radius. *)
Theorem radius_checked_by_track_distances_only
    (self start end_ : LatLon) (points : PointSeq) (closed : bool)
    (radius : R) (wrap : bool) (n m : nat) (pts qs : PointSeq) :
  points2 points true = Ok (n, pts) -> n = length (items pts) -> (1 <= n)%nat ->
  points2 points closed = Ok (m, qs) -> m = length (items qs) -> (1 <= m)%nat ->
  (radius < EPS <->
   alongTrackDistanceTo self start end_ radius wrap = Raise (ValueError RadiusInvalid))
  /\ (radius < EPS <->
      crossTrackDistanceTo self start end_ radius wrap = Raise (ValueError RadiusInvalid))
  /\ (exists area, areaOf points radius wrap = Ok area)
  /\ (exists perimeter, perimeterOf points closed radius wrap = Ok perimeter).
Proof.
  intros Hp Hn H1 Hq Hm H1'.
  split; [| split; [| split]].
  - split.
    + intros Hr. unfold alongTrackDistanceTo.
      rewrite _trackDistanceTo3_radius by assumption. reflexivity.
    + intros H. destruct (Rlt_le_dec radius EPS) as [| Hr]; [assumption |].
      rewrite alongTrackDistanceTo_value in H by assumption. discriminate.
  - split.
    + intros Hr. unfold crossTrackDistanceTo.
      rewrite _trackDistanceTo3_radius by assumption. reflexivity.
    + intros H. destruct (Rlt_le_dec radius EPS) as [| Hr]; [assumption |].
      rewrite crossTrackDistanceTo_value in H by assumption. discriminate.
  - destruct (areaOf_returns points wrap n pts Hp Hn H1) as [s Hs].
    rewrite Hs. eexists. reflexivity.
  - destruct (perimeterOf_value points closed wrap m qs Hq Hm H1') as [rs Hrs].
    rewrite Hrs. eexists. reflexivity.
Qed.

End Tracks.

(** ** The area of a polygon and the order of its points *)

Lemma atan2_opp (y x : R) : 0 <= x -> atan2 (- y) x = - atan2 y x.
Proof.
  intros Hx. unfold atan2.
  destruct (Rlt_dec 0 x) as [H0 | H0].
  - replace (- y / x) with (- (y / x)) by (field; lra). apply atan_opp.
  - destruct (Rlt_dec x 0); [lra |].
    destruct (Rlt_dec 0 (- y)); destruct (Rlt_dec 0 y); destruct (Rlt_dec y 0);
      destruct (Rlt_dec (- y) 0); lra.
Qed.

Lemma tan_le_1 (x : R) : - (PI / 4) <= x <= PI / 4 -> -1 <= tan x <= 1.
Proof.
  intros [Hl Hu]. pose proof PI_RGT_0 as Hpi.
  assert (Hup : forall y, - (PI / 4) <= y <= PI / 4 -> tan y <= 1).
  { intros y [Hyl Hyu]. destruct (Req_dec_T y (PI / 4)) as [-> | Hne].
    - rewrite tan_PI4. lra.
    - rewrite <- tan_PI4. left. apply tan_increasing; lra. }
  split.
  - assert (H : tan (- x) <= 1) by (apply Hup; lra).
    rewrite tan_neg in H. lra.
  - apply Hup. lra.
Qed.

Lemma tan_2_valid_lat (p : LatLon) :
  valid_lat p -> -1 <= tan_2 (radians (lat p)) <= 1.
Proof.
  intros [Hl Hu]. unfold tan_2. apply tan_le_1. unfold radians.
  pose proof PI_RGT_0 as Hpi.
  replace (lat p * (PI / 180) / 2) with (lat p * (PI / 360)) by field.
  split; nra.
Qed.

Lemma last_nonempty {A : Type} (l : list A) (a b : A) :
  l <> [] -> last l a = last l b.
Proof.
  induction l as [| c l IH]; intros Hl; [congruence |].
  destruct l as [| d l]; [reflexivity |].
  cbn [last] in *. apply IH. discriminate.
Qed.

Lemma last_cons {A : Type} (l : list A) (a b : A) : last (b :: l) a = last l b.
Proof.
  destruct l as [| c l]; [reflexivity |].
  change (last (b :: c :: l) a) with (last (c :: l) a).
  apply last_nonempty. discriminate.
Qed.

Section PathSums.

Variable P : LatLon -> Prop.
Variable f : LatLon * LatLon -> R.
Hypothesis f_antisym : forall p q, P p -> P q -> f (q, p) = - f (p, q).

Lemma path_sum_nil (a : LatLon) : path_sum f a [] = 0.
Proof. reflexivity. Qed.

Lemma path_sum_cons (a b : LatLon) (l : list LatLon) :
  path_sum f a (b :: l) = f (a, b) + path_sum f b l.
Proof. reflexivity. Qed.

Lemma path_sum_app (l1 l2 : list LatLon) :
  forall a, path_sum f a (l1 ++ l2) = path_sum f a l1 + path_sum f (last l1 a) l2.
Proof.
  induction l1 as [| b l1 IH]; intros a.
  - cbn [app last]. rewrite path_sum_nil. ring.
  - cbn [app]. rewrite !path_sum_cons, IH, last_cons. ring.
Qed.

(** A path walked backwards has the opposite sum. *)
Lemma path_sum_rev (l : list LatLon) :
  forall a, Forall P (a :: l) ->
    path_sum f (last l a) (rev (removelast (a :: l))) = - path_sum f a l.
Proof.
  induction l as [| b l IH]; intros a Ha.
  - cbn [last removelast rev]. rewrite !path_sum_nil. ring.
  - inversion Ha as [| ? ? Pa Hbl]; subst.
    inversion Hbl as [| ? ? Pb Hl]; subst.
    rewrite last_cons.
    change (removelast (a :: b :: l)) with (a :: removelast (b :: l)).
    cbn [rev]. rewrite path_sum_app, (IH b Hbl), path_sum_cons.
    assert (Hlast : last (rev (removelast (b :: l))) (last l b) = b).
    { destruct l as [| c l]; [reflexivity |].
      change (removelast (b :: c :: l)) with (b :: removelast (c :: l)).
      cbn [rev]. apply last_last. }
    rewrite Hlast, path_sum_cons, path_sum_nil, (f_antisym a b Pa Pb). ring.
Qed.

(** Reversing the order of the vertices of a polygon turns the sum over its
    edges into its opposite. *)
Lemma polygon_sum_rev (l : list LatLon) :
  Forall P l ->
  fsum (map f (polygon_edges (rev l))) = - fsum (map f (polygon_edges l)).
Proof.
  intros Hl. destruct l as [| a l]; [cbn; ring |].
  inversion Hl as [| ? ? Pa Hl']; subst.
  destruct (rev (a :: l)) as [| h t] eqn:Er.
  { apply (f_equal (@length _)) in Er. rewrite length_rev in Er. discriminate. }
  unfold polygon_edges. rewrite <- Er. fold (path_sum f (last (rev (a :: l)) h) (rev (a :: l))).
  fold (path_sum f (last (a :: l) a) (a :: l)).
  cbn [rev]. rewrite last_last, last_cons, path_sum_cons.
  destruct l as [| b l].
  - cbn. unfold path_sum. cbn. pose proof (f_antisym a a Pa Pa). lra.
  - assert (Hne : b :: l <> []) by discriminate.
    rewrite (app_removelast_last a Hne) at 1.
    rewrite rev_app_distr. cbn [rev app].
    rewrite path_sum_cons.
    pose proof (path_sum_rev (b :: l) a Hl) as Hrev.
    change (removelast (a :: b :: l)) with (a :: removelast (b :: l)) in Hrev.
    cbn [rev] in Hrev. rewrite Hrev.
    assert (Pz : P (last (b :: l) a)).
    { rewrite Forall_forall in Hl'. apply Hl'.
      rewrite (app_removelast_last a Hne) at 2. apply in_or_app. right. left. reflexivity. }
    rewrite (f_antisym _ _ Pz Pa). ring.
Qed.

End PathSums.

Section Reversal.

Context {formy : Formy} {utily : Utily} {points_ : Points} {base : SphericalBase}.

Lemma tan_2_delta_raw (b1 b2 : R) (wrap : bool) :
  unrollPI_unrolls ->
  tan_2 (fst (unrollPI b1 b2 wrap)) = tan ((b2 - b1) / 2).
Proof.
  intros Hu. destruct (Hu b1 b2 wrap) as [[k Hk] _]. rewrite Hk. unfold tan_2.
  replace ((b2 - b1 + 2 * IZR k * PI) / 2) with ((b2 - b1) / 2 + IZR k * PI) by field.
  apply tan_plus_Z_PI.
Qed.

(** The excess term of an edge walked backwards is the opposite one. *)
Lemma excess_term_antisym (wrap : bool) :
  unrollPI_unrolls ->
  forall p q, valid_lat p -> valid_lat q ->
    excess_term wrap (q, p) = - excess_term wrap (p, q).
Proof.
  intros Hu p q Hp Hq. unfold excess_term.
  rewrite !tan_2_delta_raw by assumption.
  replace ((radians (lon p) - radians (lon q)) / 2)
    with (- ((radians (lon q) - radians (lon p)) / 2)) by field.
  rewrite tan_neg.
  pose proof (tan_2_valid_lat p Hp) as Bp. pose proof (tan_2_valid_lat q Hq) as Bq.
  set (tp := tan_2 (radians (lat p))) in *. set (tq := tan_2 (radians (lat q))) in *.
  set (t := tan ((radians (lon q) - radians (lon p)) / 2)).
  replace (- t * (tq + tp)) with (- (t * (tp + tq))) by ring.
  replace (1 + tq * tp) with (1 + tp * tq) by ring.
  apply atan2_opp. nra.
Qed.

Lemma excess_sum_reversed (wrap : bool) (l : list LatLon) :
  unrollPI_unrolls -> Forall valid_lat l ->
  excess_sum wrap (rev l) = - excess_sum wrap l.
Proof.
  intros Hu Hl. unfold excess_sum.
  rewrite !(map_ext _ _ (edge_excess_term wrap)).
  rewrite !(fsum_map_scale 2 (excess_term wrap)).
  rewrite (polygon_sum_rev valid_lat (excess_term wrap)
             (excess_term_antisym wrap Hu) l Hl).
  ring.
Qed.

(** C8.  For every valid polygon of at least 3 points the area is not
    negative, and [areaOf] of the polygon with its points in the opposite order
    is the same area.  A valid polygon has latitudes in [-90, 90]; [points2]
    is taken to accept the points as they are, in both orders, and the pole
    test not to depend on the order. *)
Theorem areaOf_nonneg_and_reversal (points : PointSeq) (radius : R) (wrap : bool)
    (n : nat) (pts : PointSeq) :
  unrollPI_unrolls ->
  points2 points true = Ok (n, pts) ->
  n = length (items pts) -> (3 <= n)%nat ->
  Forall valid_lat (items pts) ->
  points2 (reversed points) true = Ok (n, reversed pts) ->
  ispolar (reversed pts) false = ispolar pts false ->
  exists area,
    areaOf points radius wrap = Ok area /\ 0 <= area
    /\ areaOf (reversed points) radius wrap = Ok area.
Proof.
  intros Hu Hp Hn H3 Hv Hp' Hpole.
  rewrite (areaOf_value points radius wrap n pts Hu Hp Hn) by lia.
  rewrite (areaOf_value (reversed points) radius wrap n (reversed pts) Hu Hp')
    by (cbn [reversed items]; rewrite ?length_rev; lia).
  rewrite Hpole. cbn [reversed items].
  rewrite (excess_sum_reversed wrap (items pts) Hu Hv).
  eexists. split; [reflexivity |]. split; [apply Rabs_pos |].
  f_equal. destruct (ispolar pts false).
  - rewrite Rabs_Ropp. reflexivity.
  - rewrite Ropp_mult_distr_l_reverse, Rabs_Ropp. reflexivity.
Qed.

End Reversal.

(** C4, as the code has it.  For every polygon and every value of the wrap
    argument of [areaOf], the pole test is asked without a wrap flag, which is
    [wrap=False]: two pole tests that agree without wrapping give the same
    result of [areaOf], whatever they answer with wrapping. *)
Theorem areaOf_pole_test_without_wrap {utily : Utily} {base : SphericalBase}
    (P1 P2 : Points) (points : PointSeq) (radius : R) (wrap : bool) :
  (forall ps, @ispolar P1 ps false = @ispolar P2 ps false) ->
  (forall ps, @isPoleEnclosedBy P1 ps None = @ispolar P1 ps false)
  /\ @areaOf utily P1 base points radius wrap
     = @areaOf utily P2 base points radius wrap.
Proof.
  intros H. split; [reflexivity |]. unfold areaOf.
  destruct (points2 points true) as [[n pts] | e]; cbn [bind]; [| reflexivity].
  match goal with
  | |- bind ?m _ = bind ?m _ => destruct m as [s | e]; cbn [bind]; [| reflexivity]
  end.
  unfold isPoleEnclosedBy. rewrite H. reflexivity.
Qed.

(** ** Running the code on [Model] *)

(** *** Values of the functions of [math] *)

Lemma EPS_small : EPS < 1 / 1000.
Proof.
  unfold EPS. replace (2 ^ 52) with 4503599627370496 by ring. lra.
Qed.

Lemma radians_0 : radians 0 = 0.
Proof. unfold radians. ring. Qed.

Lemma radians_of (d n : R) : n <> 0 -> d * n = 180 -> radians d = PI / n.
Proof.
  intros Hn H. unfold radians. replace d with (180 / n) by (field_simplify_eq; lra).
  field. exact Hn.
Qed.

Lemma radians_90 : radians 90 = PI / 2.
Proof. apply radians_of; lra. Qed.
Lemma radians_45 : radians 45 = PI / 4.
Proof. apply radians_of; lra. Qed.
Lemma radians_30 : radians 30 = PI / 6.
Proof. apply radians_of; lra. Qed.
Lemma radians_opp (d : R) : radians (- d) = - radians d.
Proof. unfold radians. ring. Qed.

Lemma degrees_0 : degrees 0 = 0.
Proof. unfold degrees. ring. Qed.
Lemma degrees_PI2 : degrees (PI / 2) = 90.
Proof. unfold degrees. field. apply PI_neq0. Qed.

Lemma atan2_pos (y x : R) : 0 < x -> atan2 y x = atan (y / x).
Proof. intros H. unfold atan2. destruct (Rlt_dec 0 x); [reflexivity | contradiction]. Qed.

Lemma atan2_0_pos (x : R) : 0 < x -> atan2 0 x = 0.
Proof.
  intros H. rewrite atan2_pos by assumption.
  replace (0 / x) with 0 by (field; lra). apply atan_0.
Qed.

Lemma atan2_0_0 : atan2 0 0 = 0.
Proof.
  unfold atan2. destruct (Rlt_dec 0 0); [lra |]. reflexivity.
Qed.

Lemma atan2_diag (s : R) : 0 < s -> atan2 s s = PI / 4.
Proof.
  intros H. rewrite atan2_pos by assumption.
  replace (s / s) with 1 by (field; lra). apply atan_1.
Qed.

(** The sign of [atan2]: negative exactly below the x axis, more than a right
    angle exactly in the open second quadrant. *)
Lemma atan2_neg_iff (y x : R) : atan2 y x < 0 <-> y < 0.
Proof.
  pose proof PI_RGT_0 as Hpi. unfold atan2.
  destruct (Rlt_dec 0 x) as [Hx | Hx].
  - split; intros H.
    + destruct (Rlt_le_dec y 0) as [| Hy]; [assumption |]. exfalso.
      assert (0 <= y / x) by (apply Rmult_le_pos; [lra | left; apply Rinv_0_lt_compat; lra]).
      destruct (Req_dec_T (y / x) 0) as [E | E].
      * rewrite E, atan_0 in H. lra.
      * pose proof (atan_increasing 0 (y / x) ltac:(lra)) as Hi. rewrite atan_0 in Hi. lra.
    + assert (y / x < 0).
      { unfold Rdiv. rewrite <- (Rmult_0_l (/ x)).
        apply Rmult_lt_compat_r; [apply Rinv_0_lt_compat |]; lra. }
      pose proof (atan_increasing (y / x) 0 ltac:(lra)) as Hi. rewrite atan_0 in Hi. lra.
  - destruct (Rlt_dec x 0) as [Hx' | Hx'].
    + pose proof (atan_bound (y / x)) as Hb.
      destruct (Rle_dec 0 y); split; intros; lra.
    + destruct (Rlt_dec 0 y); [split; intros; lra |].
      destruct (Rlt_dec y 0); split; intros; lra.
Qed.

Lemma atan2_obtuse_iff (y x : R) : 0 < y -> (PI / 2 < atan2 y x <-> x < 0).
Proof.
  intros Hy. pose proof PI_RGT_0 as Hpi. unfold atan2.
  pose proof (atan_bound (y / x)) as Hb.
  destruct (Rlt_dec 0 x) as [Hx | Hx]; [split; intros; lra |].
  destruct (Rlt_dec x 0) as [Hx' | Hx'].
  - destruct (Rle_dec 0 y); [| lra]. split; intros; lra.
  - destruct (Rlt_dec 0 y); [| lra]. split; intros; lra.
Qed.

Lemma clamp1_id (x : R) : -1 <= x <= 1 -> clamp1 x = x.
Proof.
  intros [Hl Hu]. unfold clamp1.
  rewrite Rmin_right by lra. rewrite Rmax_right by lra. reflexivity.
Qed.

Lemma rt2_sqr : rt2 * rt2 = 1 / 2.
Proof.
  unfold rt2. assert (H : 0 < sqrt 2) by (apply sqrt_lt_R0; lra).
  pose proof (sqrt_sqrt 2 ltac:(lra)) as Hs.
  field_simplify_eq; [| lra]. nra.
Qed.

Lemma rt2_pos : 0 < rt2.
Proof.
  unfold rt2. assert (H : 0 < sqrt 2) by (apply sqrt_lt_R0; lra).
  apply Rdiv_lt_0_compat; lra.
Qed.

Lemma rt2_bounds : 7 / 10 < rt2 < 71 / 100.
Proof. pose proof rt2_sqr. pose proof rt2_pos. split; nra. Qed.

Lemma sin_PI4' : sin (PI / 4) = rt2.
Proof. exact sin_PI4. Qed.
Lemma cos_PI4' : cos (PI / 4) = rt2.
Proof. exact cos_PI4. Qed.

Lemma acos_rt2 : acos rt2 = PI / 4.
Proof.
  rewrite <- cos_PI4'. apply acos_cos. pose proof PI_RGT_0. lra.
Qed.

(** *** The implementation [Model] *)

Lemma wrap_into_eq (hi m x : R) (k : Z) :
  0 < m -> hi - m < x - m * IZR k <= hi ->
  Model.wrap_into hi m x = x - m * IZR k.
Proof.
  intros Hm [Hl Hu]. unfold Model.wrap_into.
  assert (E : (1 - k)%Z = up ((hi - x) / m)).
  { apply tech_up; rewrite minus_IZR.
    - apply (Rmult_lt_reg_r m); [assumption |].
      replace ((hi - x) / m * m) with (hi - x) by (field; lra). lra.
    - apply (Rmult_le_reg_r m); [assumption |].
      replace (((hi - x) / m + 1) * m) with (hi - x + m) by (field; lra). lra. }
  rewrite <- E. replace (1 - (1 - k))%Z with k by lia. reflexivity.
Qed.

Lemma wrap_into_id (hi m x : R) :
  0 < m -> hi - m < x <= hi -> Model.wrap_into hi m x = x.
Proof.
  intros Hm H. rewrite (wrap_into_eq hi m x 0) by (assumption || lra). ring.
Qed.

Lemma wrap_from0_eq (m x : R) (k : Z) :
  0 < m -> 0 <= x - m * IZR k < m ->
  Model.wrap_from0 m x = x - m * IZR k.
Proof.
  intros Hm [Hl Hu]. unfold Model.wrap_from0.
  assert (E : (k + 1)%Z = up (x / m)).
  { apply tech_up; rewrite plus_IZR.
    - apply (Rmult_lt_reg_r m); [assumption |].
      replace (x / m * m) with x by (field; lra). lra.
    - apply (Rmult_le_reg_r m); [assumption |].
      replace ((x / m + 1) * m) with (x + m) by (field; lra). lra. }
  rewrite <- E. replace (k + 1 - 1)%Z with k by lia. reflexivity.
Qed.

Lemma wrap_from0_id (m x : R) :
  0 < m -> 0 <= x < m -> Model.wrap_from0 m x = x.
Proof.
  intros Hm H. rewrite (wrap_from0_eq m x 0) by (assumption || lra). ring.
Qed.

Lemma Model_unrollPI_unrolls : @unrollPI_unrolls Model.utily.
Proof.
  intros b1 b2 wrap. cbn [unrollPI Model.utily]. unfold Model.unrollPI.
  destruct (wrap && Rltb PI (Rabs (b2 - b1))); cbn [fst snd].
  - split; [| reflexivity].
    unfold Model.wrapPI, Model.wrap_into, PI2.
    exists (up ((PI - (b2 - b1)) / (2 * PI)) - 1)%Z.
    rewrite !minus_IZR. ring.
  - split; [exists 0%Z; ring | ring].
Qed.

Lemma Model_haversine_quarter : Model.haversine_ 0 0 (PI / 2) = PI / 2.
Proof.
  unfold Model.haversine_.
  replace (0 - 0) with 0 by ring. replace (0 / 2) with 0 by field.
  replace (PI / 2 / 2) with (PI / 4) by field.
  rewrite sin_0, cos_0, sin_PI4'.
  replace (0 ^ 2 + 1 * 1 * rt2 ^ 2) with (1 / 2) by (pose proof rt2_sqr; nra).
  replace (1 - 1 / 2) with (1 / 2) by field.
  rewrite atan2_diag by (apply sqrt_lt_R0; lra). field.
Qed.

(** *** Two paths, one along the great circle through both starts *)

Ltac model_fields :=
  change (@unrollPI Model.utily) with Model.unrollPI in *;
  change (@wrapPI Model.utily) with Model.wrapPI in *;
  change (@radiansPI2 Model.utily) with Model.radiansPI2 in *;
  change (@degrees90 Model.utily) with Model.degrees90 in *;
  change (@degrees180 Model.utily) with Model.degrees180 in *;
  change (@haversine_ Model.formy) with Model.haversine_ in *;
  change (@bearing_ Model.formy) with Model.bearing_ in *.

Lemma PI2_pos : 0 < PI2.
Proof. unfold PI2. pose proof PI_RGT_0. lra. Qed.

Lemma Model_radiansPI2_90 : Model.radiansPI2 90 = PI / 2.
Proof.
  unfold Model.radiansPI2. rewrite radians_90.
  apply wrap_from0_id; [apply PI2_pos |]. unfold PI2. pose proof PI_RGT_0. lra.
Qed.

Lemma Model_radiansPI2_45 : Model.radiansPI2 45 = PI / 4.
Proof.
  unfold Model.radiansPI2. rewrite radians_45.
  apply wrap_from0_id; [apply PI2_pos |]. unfold PI2. pose proof PI_RGT_0. lra.
Qed.

Lemma Model_wrapPI_0 : Model.wrapPI 0 = 0.
Proof.
  unfold Model.wrapPI. apply wrap_into_id; [apply PI2_pos |].
  unfold PI2. pose proof PI_RGT_0. lra.
Qed.

Lemma Model_wrapPI_5PI4 : Model.wrapPI (5 * (PI / 4)) = - (3 * (PI / 4)).
Proof.
  unfold Model.wrapPI. rewrite (wrap_into_eq _ _ _ 1); [unfold PI2; field | apply PI2_pos |].
  unfold PI2. pose proof PI_RGT_0. lra.
Qed.

Lemma Model_wrapPI_m5PI4 : Model.wrapPI (- (5 * (PI / 4))) = 3 * (PI / 4).
Proof.
  unfold Model.wrapPI. rewrite (wrap_into_eq _ _ _ (-1)); [unfold PI2; field | apply PI2_pos |].
  unfold PI2. pose proof PI_RGT_0. lra.
Qed.

Lemma sin_3PI4' : sin (3 * (PI / 4)) = rt2.
Proof. exact sin_3PI4. Qed.
Lemma cos_3PI4' : cos (3 * (PI / 4)) = - rt2.
Proof. rewrite cos_3PI4. unfold rt2. field. apply Rgt_not_eq, sqrt_lt_R0. lra. Qed.

Lemma Model_degrees90_0 : Model.degrees90 0 = 0.
Proof.
  unfold Model.degrees90. rewrite degrees_0. apply wrap_into_id; lra.
Qed.
Lemma Model_degrees180_0 : Model.degrees180 0 = 0.
Proof.
  unfold Model.degrees180. rewrite degrees_0. apply wrap_into_id; lra.
Qed.
Lemma Model_degrees180_PI2 : Model.degrees180 (PI / 2) = 90.
Proof.
  unfold Model.degrees180. rewrite degrees_PI2. apply wrap_into_id; lra.
Qed.

Lemma favg_same (v f : R) : favg v v f = v.
Proof. unfold favg. ring. Qed.

Lemma not_coincident_quarter : ~ Rabs (PI / 2) < EPS.
Proof.
  pose proof PI2_3_2. pose proof EPS_small.
  rewrite Rabs_pos_eq by lra. lra.
Qed.

Lemma not_parallel_1 : Rltb (Rabs 1) EPS = false.
Proof. apply Rltb_false. rewrite Rabs_R1. pose proof EPS_small. lra. Qed.

Lemma acos1_0 : acos1 0 = PI / 2.
Proof. unfold acos1. rewrite clamp1_id by lra. apply acos_0. Qed.

Lemma acos1_rt2 : acos1 rt2 = PI / 4.
Proof.
  unfold acos1. pose proof rt2_bounds. rewrite clamp1_id by lra. apply acos_rt2.
Qed.

Lemma Reqb_refl (x : R) : Reqb x x = true.
Proof. apply Reqb_true. reflexivity. Qed.

Lemma Reqb_neq (x y : R) : x <> y -> Reqb x y = false.
Proof. intros H. unfold Reqb. destruct (Req_dec_T x y); [contradiction | reflexivity]. Qed.

Lemma intersection_equator_east :
  @intersection Model.formy Model.utily
    (mkLatLon 0 0 0) 90 (mkLatLon 0 90 0) 45 None false None
  = Ok (AsTuple 0 0 0).
Proof.
  unfold intersection, to2ab. cbn [lat lon height]. model_fields.
  rewrite radians_0, radians_90.
  unfold Model.unrollPI. cbn [andb]. cbv beta iota zeta.
  replace (PI / 2 - 0) with (PI / 2) by ring.
  rewrite Model_haversine_quarter.
  destruct (Rlt_dec (Rabs (PI / 2)) EPS) as [H | _];
    [exfalso; exact (not_coincident_quarter H) |].
  rewrite sin_PI2, cos_PI2, sin_0, cos_0.
  replace (1 * 1) with 1 by ring. replace (0 - 0 * 0) with 0 by ring.
  rewrite not_parallel_1. cbn [orb].
  rewrite py_div_ok by lra. cbn [bind].
  replace (0 / 1) with 0 by field. rewrite acos1_0.
  destruct (Rlt_dec 0 1) as [_ | H]; [| exfalso; lra].
  rewrite Model_radiansPI2_90, Model_radiansPI2_45.
  replace (PI / 2 - PI / 2) with 0 by ring.
  replace (PI2 - PI / 2 - PI / 4) with (5 * (PI / 4)) by (unfold PI2; field).
  rewrite Model_wrapPI_0, Model_wrapPI_5PI4.
  rewrite sin_0, cos_0, sin_neg, cos_neg, sin_3PI4', cos_3PI4'.
  pose proof rt2_bounds as Hrt.
  rewrite Reqb_refl, (Reqb_neq (- rt2) 0) by lra. cbn [andb].
  replace (0 * - rt2) with 0 by ring.
  destruct (Rlt_dec 0 0) as [H | _]; [exfalso; lra |].
  replace (0 * 0 - - rt2 * 1) with rt2 by ring.
  rewrite acos1_rt2, cos_PI4'.
  replace (1 * 0) with 0 by ring. replace (- rt2 + 1 * rt2) with 0 by ring.
  rewrite atan2_0_0.
  unfold _destination2. model_fields.
  rewrite sin_PI2, cos_PI2, sin_0, cos_0.
  replace (0 * 0 * 1 + 1 * 0) with 0 by ring.
  rewrite py_asin_ok by lra. cbn [bind]. rewrite asin_0, sin_0.
  replace (1 * 0 * 1) with 0 by ring. replace (1 - 0 * 0) with 1 by ring.
  rewrite atan2_0_pos by lra. replace (0 + 0) with 0 by ring.
  rewrite Model_degrees90_0, Model_degrees180_0.
  unfold _havg. cbn [height bind]. rewrite favg_same. reflexivity.
Qed.

Lemma Model_haversine_quarter_opp : Model.haversine_ 0 0 (- (PI / 2)) = PI / 2.
Proof.
  unfold Model.haversine_.
  replace (0 - 0) with 0 by ring. replace (0 / 2) with 0 by field.
  replace (- (PI / 2) / 2) with (- (PI / 4)) by field.
  rewrite sin_0, cos_0, sin_neg, sin_PI4'.
  replace (0 ^ 2 + 1 * 1 * (- rt2) ^ 2) with (1 / 2) by (pose proof rt2_sqr; nra).
  replace (1 - 1 / 2) with (1 / 2) by field.
  rewrite atan2_diag by (apply sqrt_lt_R0; lra). field.
Qed.

Lemma intersection_equator_east_swapped :
  @intersection Model.formy Model.utily
    (mkLatLon 0 90 0) 45 (mkLatLon 0 0 0) 90 None false None
  = Ok (AsTuple 0 90 0).
Proof.
  unfold intersection, to2ab. cbn [lat lon height]. model_fields.
  rewrite radians_0, radians_90.
  unfold Model.unrollPI. cbn [andb]. cbv beta iota zeta.
  replace (0 - PI / 2) with (- (PI / 2)) by ring.
  rewrite Model_haversine_quarter_opp.
  destruct (Rlt_dec (Rabs (PI / 2)) EPS) as [H | _];
    [exfalso; exact (not_coincident_quarter H) |].
  rewrite sin_neg, sin_PI2, cos_PI2, sin_0, cos_0.
  replace (1 * 1) with 1 by ring. replace (0 - 0 * 0) with 0 by ring.
  rewrite not_parallel_1. cbn [orb].
  rewrite py_div_ok by lra. cbn [bind].
  replace (0 / 1) with 0 by field. rewrite acos1_0.
  destruct (Rlt_dec 0 (- (1))) as [H | _]; [exfalso; lra |].
  rewrite Model_radiansPI2_90, Model_radiansPI2_45.
  replace (PI / 2 - PI / 2) with 0 by ring.
  replace (PI / 4 - (PI2 - PI / 2)) with (- (5 * (PI / 4))) by (unfold PI2; field).
  rewrite Model_wrapPI_0, Model_wrapPI_m5PI4.
  rewrite sin_0, cos_0, sin_3PI4', cos_3PI4'.
  pose proof rt2_bounds as Hrt.
  rewrite (Reqb_neq rt2 0) by lra. cbn [andb].
  replace (rt2 * 0) with 0 by ring.
  destruct (Rlt_dec 0 0) as [H | _]; [exfalso; lra |].
  replace (0 * 0 - 1 * - rt2) with rt2 by ring.
  rewrite acos1_rt2, cos_PI4'.
  replace (1 * 0) with 0 by ring.
  rewrite atan2_0_pos by (pose proof rt2_sqr; nra).
  unfold _destination2. model_fields.
  rewrite cos_PI4', sin_PI4', sin_0, cos_0.
  replace (rt2 * 0 * 1 + 1 * 0) with 0 by ring.
  rewrite py_asin_ok by lra. cbn [bind]. rewrite asin_0, sin_0.
  replace (rt2 * 0 * 1) with 0 by ring. replace (1 - 0 * 0) with 1 by ring.
  rewrite atan2_0_pos by lra. replace (PI / 2 + 0) with (PI / 2) by ring.
  rewrite Model_degrees90_0, Model_degrees180_PI2.
  unfold _havg. cbn [height bind]. rewrite favg_same. reflexivity.
Qed.

(** *** Two starts at the north pole *)

Lemma Model_unrollPI_across :
  Model.unrollPI (radians 175) (radians (-165)) true
  = (PI / 9, radians 175 + PI / 9).
Proof.
  unfold Model.unrollPI. cbn [andb]. pose proof PI_RGT_0 as Hpi.
  assert (Hr : radians (-165) - radians 175 = - (17 * (PI / 9))).
  { unfold radians. field. }
  rewrite Hr.
  assert (Hb : Rltb PI (Rabs (- (17 * (PI / 9)))) = true).
  { apply Rltb_true. rewrite Rabs_Ropp, Rabs_pos_eq; lra. }
  rewrite Hb.
  assert (Hw : Model.wrapPI (- (17 * (PI / 9))) = PI / 9).
  { unfold Model.wrapPI. rewrite (wrap_into_eq _ _ _ (-1));
      [unfold PI2; field | apply PI2_pos | unfold PI2; lra]. }
  rewrite Hw. reflexivity.
Qed.

Lemma Model_haversine_pole (b21 : R) : Model.haversine_ (PI / 2) (PI / 2) b21 = 0.
Proof.
  unfold Model.haversine_.
  replace (PI / 2 - PI / 2) with 0 by ring. replace (0 / 2) with 0 by field.
  rewrite sin_0, cos_PI2.
  replace (0 ^ 2 + 0 * 0 * sin (b21 / 2) ^ 2) with 0 by ring.
  replace (1 - 0) with 1 by ring.
  rewrite sqrt_0, sqrt_1, atan2_0_pos by lra. ring.
Qed.

Lemma intersection_at_pole_across (bearing1 bearing2 : R) :
  @intersection Model.formy Model.utily
    (mkLatLon 90 175 0) bearing1 (mkLatLon 90 (-165) 0) bearing2 None true None
  = Ok (AsTuple 90 185 0).
Proof.
  unfold intersection, to2ab. cbn [lat lon height]. model_fields.
  rewrite radians_90, Model_unrollPI_across.
  rewrite Model_haversine_pole, Rabs_R0.
  destruct (Rlt_dec 0 EPS) as [_ | H]; [| exfalso; exact (H EPS_pos)].
  cbn [bind]. unfold _havg. cbn [height]. rewrite !favg_same.
  rewrite degrees_PI2. do 2 f_equal.
  unfold favg, degrees, radians. field. apply PI_neq0.
Qed.

Lemma rt3_sqr : rt3 * rt3 = 3.
Proof. unfold rt3. apply sqrt_sqrt. lra. Qed.

Lemma rt3_pos : 0 < rt3.
Proof. unfold rt3. apply sqrt_lt_R0. lra. Qed.

Lemma rt3_bounds : 17 / 10 < rt3 < 174 / 100.
Proof. pose proof rt3_sqr. pose proof rt3_pos. split; nra. Qed.

(** *** Sides and signed angles *)

Lemma length3_ge (c : R) (x : Vector3d) : 0 <= c -> c * c <= dot x x -> c <= length3 x.
Proof.
  intros Hc H. unfold length3. rewrite <- (sqrt_square c Hc).
  apply sqrt_le_1_alt. exact H.
Qed.

Lemma length3_ge_EPS (x : Vector3d) : 1 / 1000000 <= dot x x -> ~ length3 x < EPS.
Proof.
  intros H. pose proof EPS_small.
  pose proof (length3_ge (1 / 1000) x ltac:(lra) ltac:(lra)). lra.
Qed.

Lemma side_right (g n0 : Vector3d) :
  1 / 1000000 <= dot (cross g n0) (cross g n0) -> dot g n0 < 0 ->
  Rltb PI_2 (angleTo g n0 None) = true.
Proof.
  intros Hs Hd. apply Rltb_true. unfold angleTo, PI_2.
  pose proof (length3_ge_EPS _ Hs) as Hl. pose proof EPS_pos.
  destruct (Rlt_dec (length3 (cross g n0)) EPS); [contradiction |].
  apply atan2_obtuse_iff; lra.
Qed.

Lemma side_left (g n0 : Vector3d) :
  0 <= dot g n0 -> Rltb PI_2 (angleTo g n0 None) = false.
Proof.
  intros Hd. apply Rltb_false. unfold angleTo, PI_2. pose proof PI_RGT_0. pose proof EPS_pos.
  destruct (Rlt_dec (length3 (cross g n0)) EPS); [lra |].
  intros Ha. apply atan2_obtuse_iff in Ha; lra.
Qed.

Lemma signed_angle_negative (g1 g2 n0 : Vector3d) :
  1 / 1000000 <= dot (cross g1 g2) (cross g1 g2) -> dot (cross g1 g2) n0 < 0 ->
  angleTo g1 g2 (Some n0) < 0.
Proof.
  intros Hs Hd. unfold angleTo.
  pose proof (length3_ge_EPS _ Hs) as Hl. pose proof EPS_pos.
  destruct (Rlt_dec (length3 (cross g1 g2)) EPS); [contradiction |].
  destruct (Rlt_dec (dot (cross g1 g2) n0) 0); [| contradiction].
  apply atan2_neg_iff. lra.
Qed.

(** *** The polygon [dented] and the point [outside] *)

Lemma toVector3d_M : toVector3d (mkLatLon 45 45 0) = mkVector3d (1 / 2) (1 / 2) rt2.
Proof.
  unfold toVector3d, to3xyz, to2ab. cbn [lat lon].
  rewrite radians_45, sin_PI4', cos_PI4', rt2_sqr. reflexivity.
Qed.

Lemma toVector3d_D : toVector3d (mkLatLon 90 0 0) = mkVector3d 0 0 1.
Proof.
  unfold toVector3d, to3xyz, to2ab. cbn [lat lon].
  rewrite radians_90, radians_0, sin_PI2, cos_PI2, sin_0, cos_0.
  f_equal; ring.
Qed.

Lemma toVector3d_A : toVector3d (mkLatLon 0 0 0) = mkVector3d 1 0 0.
Proof.
  unfold toVector3d, to3xyz, to2ab. cbn [lat lon].
  rewrite radians_0, sin_0, cos_0. f_equal; ring.
Qed.

Lemma toVector3d_B : toVector3d (mkLatLon 0 90 0) = mkVector3d 0 1 0.
Proof.
  unfold toVector3d, to3xyz, to2ab. cbn [lat lon].
  rewrite radians_90, radians_0, sin_PI2, cos_PI2, sin_0, cos_0.
  f_equal; ring.
Qed.

Lemma toVector3d_outside :
  toVector3d outside = mkVector3d (3 / 4) (- (rt3 / 4)) (1 / 2).
Proof.
  unfold toVector3d, to3xyz, to2ab, outside. cbn [lat lon].
  replace (radians (-30)) with (- (PI / 6)) by (unfold radians; field).
  rewrite radians_30, sin_neg, cos_neg, sin_PI6, cos_PI6.
  fold rt3. pose proof rt3_sqr. f_equal; nra.
Qed.

Lemma cross_BM : cross (mkVector3d 0 1 0) (mkVector3d (1 / 2) (1 / 2) rt2) = gBM.
Proof. unfold cross, gBM. cbn [vx vy vz]. f_equal; ring. Qed.
Lemma cross_MD : cross (mkVector3d (1 / 2) (1 / 2) rt2) (mkVector3d 0 0 1) = gMD.
Proof. unfold cross, gMD. cbn [vx vy vz]. f_equal; ring. Qed.
Lemma cross_DA : cross (mkVector3d 0 0 1) (mkVector3d 1 0 0) = gDA.
Proof. unfold cross, gDA. cbn [vx vy vz]. f_equal; ring. Qed.
Lemma cross_AB : cross (mkVector3d 1 0 0) (mkVector3d 0 1 0) = gAB.
Proof. unfold cross, gAB. cbn [vx vy vz]. f_equal; ring. Qed.

Ltac vec_arith :=
  unfold dot, cross, gBM, gMD, gDA, gAB, n0q; cbn [vx vy vz];
  pose proof rt2_sqr; pose proof rt2_bounds; pose proof rt3_sqr; pose proof rt3_bounds;
  nra.

Lemma side_BM : Rltb PI_2 (angleTo gBM n0q None) = false.
Proof. apply side_left. vec_arith. Qed.
Lemma side_MD : Rltb PI_2 (angleTo gMD n0q None) = false.
Proof. apply side_left. vec_arith. Qed.
Lemma side_DA : Rltb PI_2 (angleTo gDA n0q None) = true.
Proof. apply side_right; vec_arith. Qed.
Lemma side_AB : Rltb PI_2 (angleTo gAB n0q None) = false.
Proof. apply side_left. vec_arith. Qed.

Lemma signed_AB_BM : angleTo gAB gBM (Some n0q) < 0.
Proof. apply signed_angle_negative; vec_arith. Qed.

Ltac at_index :=
  match goal with
  | |- context [getitem ?l ?i] =>
      let j := eval compute in (Z.to_nat i) in
      change i with (Z.of_nat j);
      erewrite (getitem_nth l j) by reflexivity
  end; cbn [bind].

Lemma isenclosedBy_numpy_dented :
  @isenclosedBy Model.utily Model.base outside (mkPoints dented true)
  = Raise (ValueError NonConvex).
Proof.
  unfold isenclosedBy. cbn [points2 Model.base]. unfold Model.points2.
  cbn [items dented length Nat.ltb Nat.leb bind].
  cbn [iterNumpy2 Model.utily numpy2].
  unfold isenclosedBy_numpy. cbn [items].
  do 2 at_index.
  unfold range, range2. cbn [Nat.sub seq isenclosedBy_numpy_loop items].
  at_index.
  rewrite toVector3d_A, toVector3d_B, toVector3d_M, toVector3d_outside.
  rewrite cross_AB, cross_BM. fold n0q.
  rewrite side_AB, side_BM. cbn [eqb negb].
  destruct (Rlt_dec (angleTo gAB gBM (Some n0q)) 0) as [_ | H];
    [reflexivity | exfalso; exact (H signed_AB_BM)].
Qed.

Lemma gc_loop_dented :
  isenclosedBy_gc_loop (mkPoints dented false) (range 4) []
    (toVector3d (mkLatLon 0 90 0))
  = Ok [gBM; gMD; gDA; gAB].
Proof.
  unfold range, range2. cbn [Nat.sub seq isenclosedBy_gc_loop items].
  do 4 at_index. cbn [app].
  rewrite toVector3d_A, toVector3d_B, toVector3d_M, toVector3d_D.
  rewrite cross_AB, cross_BM, cross_MD, cross_DA. reflexivity.
Qed.

Lemma isenclosedBy_plain_dented :
  @isenclosedBy Model.utily Model.base outside (mkPoints dented false)
  = Ok false.
Proof.
  unfold isenclosedBy. cbn [points2 Model.base]. unfold Model.points2.
  cbn [items dented length Nat.ltb Nat.leb bind].
  cbn [iterNumpy2 Model.utily numpy2].
  unfold isenclosedBy_plain. cbn [items].
  at_index. fold dented. rewrite gc_loop_dented. cbn [bind].
  at_index. rewrite toVector3d_outside. fold n0q.
  unfold range2. cbn [Nat.sub seq isenclosedBy_side_loop].
  at_index. rewrite side_MD, side_BM. cbn [eqb negb].
  at_index. rewrite side_DA. cbn [eqb negb bind]. reflexivity.
Qed.

Lemma convexity_dented :
  isenclosedBy_convex_loop n0q [gBM; gMD; gDA; gAB] gAB = Raise (ValueError NonConvex).
Proof.
  cbn [isenclosedBy_convex_loop].
  destruct (Rlt_dec (angleTo gAB gBM (Some n0q)) 0) as [_ | H];
    [reflexivity | exfalso; exact (H signed_AB_BM)].
Qed.

(** ** The properties on concrete points *)

(** C9.  Swapping the labels of two paths changes the point [intersection]
    returns: the path from (0, 0) on the bearing 90 runs along the equator
    through (0, 90), where the second path starts on the bearing 45.  With
    the paths in this order the result is (0, 0), the first start, which is
    not on the second path; with the paths swapped it is (0, 90). *)
Theorem intersection_not_symmetric :
  @intersection Model.formy Model.utily
    (mkLatLon 0 0 0) 90 (mkLatLon 0 90 0) 45 None false None
  = Ok (AsTuple 0 0 0)
  /\ @intersection Model.formy Model.utily
       (mkLatLon 0 90 0) 45 (mkLatLon 0 0 0) 90 None false None
     = Ok (AsTuple 0 90 0).
Proof.
  split; [exact intersection_equator_east | exact intersection_equator_east_swapped].
Qed.

(** C7.  The branch of [intersection] for coincident starts returns a
    longitude that is not in (-180, 180]: for the two starts (90, 175) and
    (90, -165) at the north pole and [wrap=True] the result is the tuple
    (90, 185, 0).  This branch converts with [degrees] alone; the other one
    goes through [degrees90] and [degrees180]
    ([intersection_not_coincident_normalized]). *)
Theorem intersection_coincident_not_normalized :
  @intersection Model.formy Model.utily
    (mkLatLon 90 175 0) 0 (mkLatLon 90 (-165) 0) 0 None true None
  = Ok (AsTuple 90 185 0)
  /\ ~ (-180 < point_lon (AsTuple 90 185 0) <= 180).
Proof.
  split; [apply intersection_at_pole_across |].
  cbn [point_lon]. lra.
Qed.

(** C5.  The two branches of [isenclosedBy] give different outcomes on the
    same polygon and point: for the polygon [dented] and the point [outside]
    the branch for NumPy arrays raises the non-convex error and the branch for
    plain sequences returns [False]. *)
Theorem isenclosedBy_branches_disagree :
  @isenclosedBy Model.utily Model.base outside (mkPoints dented true)
  = Raise (ValueError NonConvex)
  /\ @isenclosedBy Model.utily Model.base outside (mkPoints dented false)
     = Ok false.
Proof.
  split; [exact isenclosedBy_numpy_dented | exact isenclosedBy_plain_dented].
Qed.

Lemma great_circles_dented :
  great_circles (mkPoints dented false) (length dented) = Ok [gBM; gMD; gDA; gAB].
Proof.
  unfold great_circles. cbn [items length dented]. at_index.
  fold dented. apply gc_loop_dented.
Qed.

(** C10.  There are a polygon that is not convex and a point on another
    side of one edge than of the first edge for which [isenclosedBy] returns
    [False] and not the non-convex error: on a plain sequence the sides of all
    edges are compared, and [False] returned, before the test for a convex
    polygon, which fails on the great-circle vectors of this polygon. *)
Theorem isenclosedBy_outside_before_convexity :
  exists (polygon : list LatLon) (self : LatLon) (gc : list Vector3d) (g : Vector3d),
    great_circles (mkPoints polygon false) (length polygon) = Ok gc
    /\ getitem gc (Z.of_nat (length polygon) - 1) = Ok g
    /\ isenclosedBy_convex_loop (toVector3d self) gc g = Raise (ValueError NonConvex)
    /\ map (on_right (toVector3d self)) gc = [false; false; true; false]
    /\ @isenclosedBy Model.utily Model.base self (mkPoints polygon false) = Ok false.
Proof.
  exists dented, outside, [gBM; gMD; gDA; gAB], gAB.
  split; [exact great_circles_dented |].
  split; [cbn [length dented]; at_index; reflexivity |].
  rewrite toVector3d_outside. fold n0q.
  split; [exact convexity_dented |].
  split; [| exact isenclosedBy_plain_dented].
  unfold on_right. cbn [map]. rewrite side_BM, side_MD, side_DA, side_AB. reflexivity.
Qed.

(** *** The general properties at concrete points *)

Lemma separation_quarter :
  EPS <= @angular_separation Model.formy Model.utily
           (mkLatLon 0 0 0) (mkLatLon 0 90 0) false.
Proof.
  unfold angular_separation. cbn [lat lon]. model_fields.
  rewrite radians_0, radians_90. unfold Model.unrollPI. cbn [andb fst].
  replace (PI / 2 - 0) with (PI / 2) by ring. rewrite Model_haversine_quarter.
  pose proof PI2_3_2. pose proof EPS_small. lra.
Qed.

(** *** A path through the start of the other path *)

Lemma separation_quarter_value :
  @angular_separation Model.formy Model.utily (mkLatLon 0 0 0) (mkLatLon 0 90 0) false
  = PI / 2.
Proof.
  unfold angular_separation. cbn [lat lon]. model_fields.
  rewrite radians_0, radians_90. unfold Model.unrollPI. cbn [andb fst].
  replace (PI / 2 - 0) with (PI / 2) by ring. apply Model_haversine_quarter.
Qed.

Lemma side_sines_quarter :
  @triangle_side_sines Model.formy Model.utily (mkLatLon 0 0 0) (mkLatLon 0 90 0) false
  = (1, 1).
Proof.
  unfold triangle_side_sines. rewrite separation_quarter_value. cbn [lat].
  rewrite radians_0, sin_PI2, cos_0. f_equal; ring.
Qed.

Lemma turn_sines_east :
  @turn_angle_sines Model.formy Model.utily
    (mkLatLon 0 0 0) 90 (mkLatLon 0 90 0) 45 false
  = (0, - rt2).
Proof.
  unfold turn_angle_sines, bearings_between.
  rewrite side_sines_quarter, separation_quarter_value. cbn [lat lon]. model_fields.
  rewrite radians_0, radians_90. unfold Model.unrollPI. cbn [andb fst].
  replace (PI / 2 - 0) with (PI / 2) by ring.
  rewrite sin_PI2, cos_PI2, sin_0.
  replace ((0 - 0 * 0) / 1) with 0 by field.
  fold (acos1 0). rewrite acos1_0.
  destruct (Rlt_dec 0 1) as [_ | H]; [| exfalso; lra].
  rewrite Model_radiansPI2_90, Model_radiansPI2_45.
  replace (PI / 2 - PI / 2) with 0 by ring.
  replace (2 * PI - PI / 2 - PI / 4) with (5 * (PI / 4)) by field.
  rewrite Model_wrapPI_0, Model_wrapPI_5PI4.
  rewrite sin_0, sin_neg, sin_3PI4'. reflexivity.
Qed.

Lemma greatCircle_0_0_east : greatCircle (mkLatLon 0 0 0) 90 = mkVector3d 0 0 1.
Proof.
  unfold greatCircle, to2ab. cbn [lat lon].
  rewrite radians_0, radians_90, sin_0, cos_0, sin_PI2, cos_PI2. f_equal; ring.
Qed.

Lemma greatCircle_0_90_northeast :
  greatCircle (mkLatLon 0 90 0) 45 = mkVector3d rt2 0 rt2.
Proof.
  unfold greatCircle, to2ab. cbn [lat lon].
  rewrite radians_0, radians_90, radians_45, sin_0, cos_0, sin_PI2, cos_PI2,
    sin_PI4', cos_PI4'.
  f_equal; ring.
Qed.

(** C1.  [intersection] returns, without an error, a point that is no
    intersection point.  The starts (0, 0) and (0, 90) are a quarter of a
    great circle apart; neither triangle-side sine is within EPS of zero, both
    are 1; the turn-angle sines are 0 and -1/sqrt 2, not both zero, and their
    product is not negative.  This is none of the three cases of an error,
    and [intersection] returns (0, 0, 0), the first start: a point of the
    great circle of the first path, but not of the great circle of the second
    path, the one from (0, 90) on the bearing 45.  The two great circles meet
    at (0, 90), the second start.  The test for coinciding paths,
    [sx1 == 0 and sx2 == 0], misses the case of one sine that is zero: the
    distance [r13] to the intersection is then atan2(0, 0) = 0. *)
Theorem intersection_returns_off_path :
  let start1 := mkLatLon 0 0 0 in
  let start2 := mkLatLon 0 90 0 in
  let x := @triangle_side_sines Model.formy Model.utily start1 start2 false in
  let sx := @turn_angle_sines Model.formy Model.utily start1 90 start2 45 false in
  EPS <= @angular_separation Model.formy Model.utily start1 start2 false
  /\ ~ (Rabs (fst x) < EPS \/ Rabs (snd x) < EPS)
  /\ ~ (fst sx = 0 /\ snd sx = 0)
  /\ ~ fst sx * snd sx < 0
  /\ @intersection Model.formy Model.utily start1 90 start2 45 None false None
     = Ok (AsTuple 0 0 0)
  /\ dot (greatCircle start1 90) (toVector3d (mkLatLon 0 0 0)) = 0
  /\ dot (greatCircle start2 45) (toVector3d (mkLatLon 0 0 0)) <> 0
  /\ dot (greatCircle start1 90) (toVector3d start2) = 0
  /\ dot (greatCircle start2 45) (toVector3d start2) = 0.
Proof.
  cbv zeta. rewrite side_sines_quarter, turn_sines_east. cbn [fst snd].
  rewrite greatCircle_0_0_east, greatCircle_0_90_northeast,
    toVector3d_A, toVector3d_B.
  unfold dot. cbn [vx vy vz].
  pose proof rt2_bounds as Hrt. pose proof EPS_small as He.
  split; [exact separation_quarter |].
  split; [rewrite Rabs_R1; lra |].
  split; [lra |].
  split; [lra |].
  split; [exact intersection_equator_east |].
  repeat split; lra.
Qed.

Lemma three_le_four : (3 <= 4)%nat.
Proof. lia. Qed.

Lemma one_le_four : (1 <= 4)%nat.
Proof. lia. Qed.

Lemma square_valid : Forall valid_lat square.
Proof. unfold square. repeat constructor; cbn [lat]; lra. Qed.

Lemma EPS_le_1 : EPS <= 1.
Proof. pose proof EPS_small. lra. Qed.

(** The area of the polygon [square] by the formula. *)
Lemma areaOf_formula_witness :
  @unrollPI_unrolls Model.utily
  /\ @points2 Model.base (mkPoints square false) true = Ok (4%nat, mkPoints square false)
  /\ @areaOf Model.utily Model.no_pole Model.base (mkPoints square false) 1 true
     = Ok (Rabs (@excess_sum Model.utily true square) * 1 ^ 2)
  /\ 0 <= Rabs (@excess_sum Model.utily true square) * 1 ^ 2.
Proof.
  split; [exact Model_unrollPI_unrolls |].
  split; [reflexivity |].
  exact (areaOf_formula (utily := Model.utily) (points_ := Model.no_pole)
           (base := Model.base) (mkPoints square false) 1 true 4
           (mkPoints square false) Model_unrollPI_unrolls eq_refl eq_refl
           three_le_four).
Defined.

(** The along-track distance of (53, -1) on the path from (53, -2) to (53, 0)
    for the radius 1. *)
Lemma alongTrackDistanceTo_formula_witness :
  EPS <= 1
  /\ (let r := @track_r Model.formy Model.utily
                 (mkLatLon 53 (-1) 0) (mkLatLon 53 (-2) 0) false in
      let b := @track_bearing Model.formy
                 (mkLatLon 53 (-2) 0) (mkLatLon 53 (-1) 0) false in
      let e := @track_bearing Model.formy
                 (mkLatLon 53 (-2) 0) (mkLatLon 53 0 0) false in
      let x := asin (sin r * sin (b - e)) in
      @alongTrackDistanceTo Model.formy Model.utily Model.base
        (mkLatLon 53 (-1) 0) (mkLatLon 53 (-2) 0) (mkLatLon 53 0 0) 1 false
      = Ok (if Rle_dec (Rabs (cos x)) EPS then 0
            else sgn (cos (b - e)) * acos (clamp1 (cos r / cos x)) * 1)).
Proof.
  split; [exact EPS_le_1 |].
  exact (alongTrackDistanceTo_formula (formy := Model.formy) (utily := Model.utily)
           (base := Model.base)
           (mkLatLon 53 (-1) 0) (mkLatLon 53 (-2) 0) (mkLatLon 53 0 0) 1 false
           EPS_le_1).
Defined.

(** The area of [square] and of [square] in the opposite order. *)
Lemma areaOf_nonneg_and_reversal_witness :
  Forall valid_lat square
  /\ exists area,
       @areaOf Model.utily Model.no_pole Model.base (mkPoints square false) 1 true
       = Ok area
       /\ 0 <= area
       /\ @areaOf Model.utily Model.no_pole Model.base
            (reversed (mkPoints square false)) 1 true
          = Ok area.
Proof.
  split; [exact square_valid |].
  exact (areaOf_nonneg_and_reversal (utily := Model.utily) (points_ := Model.no_pole)
           (base := Model.base) (mkPoints square false) 1 true 4
           (mkPoints square false) Model_unrollPI_unrolls eq_refl eq_refl
           three_le_four square_valid eq_refl eq_refl).
Defined.

(** The radius 0 on the polygon [square]. *)
Lemma radius_checked_by_track_distances_only_witness :
  @points2 Model.base (mkPoints square false) true = Ok (4%nat, mkPoints square false)
  /\ (0 < EPS <->
      @alongTrackDistanceTo Model.formy Model.utily Model.base
        (mkLatLon 53 (-1) 0) (mkLatLon 53 (-2) 0) (mkLatLon 53 0 0) 0 true
      = Raise (ValueError RadiusInvalid))
  /\ (0 < EPS <->
      @crossTrackDistanceTo Model.formy Model.utily Model.base
        (mkLatLon 53 (-1) 0) (mkLatLon 53 (-2) 0) (mkLatLon 53 0 0) 0 true
      = Raise (ValueError RadiusInvalid))
  /\ (exists area,
        @areaOf Model.utily Model.no_pole Model.base (mkPoints square false) 0 true
        = Ok area)
  /\ (exists perimeter,
        @perimeterOf Model.formy Model.utily Model.base
          (mkPoints square false) true 0 true
        = Ok perimeter).
Proof.
  split; [reflexivity |].
  exact (radius_checked_by_track_distances_only
           (formy := Model.formy) (utily := Model.utily) (points_ := Model.no_pole)
           (base := Model.base)
           (mkLatLon 53 (-1) 0) (mkLatLon 53 (-2) 0) (mkLatLon 53 0 0)
           (mkPoints square false) true 0 true 4 4
           (mkPoints square false) (mkPoints square false)
           eq_refl eq_refl one_le_four eq_refl eq_refl one_le_four).
Defined.

(** C6 fails on the code: with the radius 0, which is not more than EPS,
    [areaOf] and [perimeterOf] return 0 for the polygon [square]. *)
Lemma radius_zero_accepted :
  0 <= EPS
  /\ @areaOf Model.utily Model.no_pole Model.base (mkPoints square false) 0 true
     = Ok 0
  /\ @perimeterOf Model.formy Model.utily Model.base (mkPoints square false) true 0 true
     = Ok 0.
Proof.
  split; [left; exact EPS_pos |]. split.
  - destruct (areaOf_returns (utily := Model.utily) (points_ := Model.no_pole)
                (base := Model.base) (mkPoints square false) true 4
                (mkPoints square false) eq_refl eq_refl one_le_four) as [s Hs].
    rewrite Hs. f_equal. replace (s * 0 ^ 2) with 0 by ring. apply Rabs_R0.
  - destruct (perimeterOf_value (formy := Model.formy) (utily := Model.utily)
                (base := Model.base) (mkPoints square false) true true 4
                (mkPoints square false) eq_refl eq_refl one_le_four) as [rs Hrs].
    rewrite Hrs. f_equal. ring.
Qed.

Lemma edge_excess_equator {utily : Utily} (wrap : bool) (p1 p2 : LatLon) :
  lat p1 = 0 -> lat p2 = 0 -> edge_excess wrap (p1, p2) = 0.
Proof.
  intros H1 H2. unfold edge_excess. rewrite H1, H2, radians_0.
  replace (0 / 2) with 0 by field. rewrite tan_0.
  match goal with
  | |- 2 * atan2 (?t * (0 + 0)) (1 + 0 * 0) = 0 =>
      replace (t * (0 + 0)) with 0 by ring
  end.
  replace (1 + 0 * 0) with 1 by ring. rewrite atan2_0_pos by lra. ring.
Qed.

Lemma excess_sum_equator {utily : Utily} (wrap : bool) : excess_sum wrap equator = 0.
Proof.
  unfold excess_sum, polygon_edges, equator. cbn [last edges_from map].
  rewrite !edge_excess_equator by reflexivity. unfold fsum. cbn [fold_right]. ring.
Qed.

Lemma one_le_three : (1 <= 3)%nat.
Proof. lia. Qed.

(** The two pole tests [no_pole] and [pole_iff_wrap] on three points of the
    equator with [wrap=True]. *)
Lemma areaOf_pole_test_without_wrap_witness :
  (forall ps, @ispolar Model.no_pole ps false = @ispolar Model.pole_iff_wrap ps false)
  /\ (forall ps, @isPoleEnclosedBy Model.no_pole ps None = @ispolar Model.no_pole ps false)
  /\ @areaOf Model.utily Model.no_pole Model.base (mkPoints equator false) 1 true
     = @areaOf Model.utily Model.pole_iff_wrap Model.base (mkPoints equator false) 1 true.
Proof.
  split; [intros ps; reflexivity |].
  exact (areaOf_pole_test_without_wrap (utily := Model.utily) (base := Model.base)
           Model.no_pole Model.pole_iff_wrap (mkPoints equator false) 1 true
           (fun ps => eq_refl)).
Defined.

(** C4 fails on the code: with [wrap=True] and a pole test that finds a pole
    exactly when it is asked with [wrap=True], [areaOf] returns the area for
    the answer to [wrap=False], here 0, and not the area for the answer to its
    own wrap flag, here 2 PI. *)
Lemma areaOf_pole_test_ignores_wrap :
  @areaOf Model.utily Model.pole_iff_wrap Model.base (mkPoints equator false) 1 true
  = Ok 0
  /\ @areaOf_same_wrap Model.utily Model.pole_iff_wrap Model.base
       (mkPoints equator false) 1 true
     = Ok (2 * PI)
  /\ 0 <> 2 * PI.
Proof.
  pose proof PI_RGT_0 as Hpi. split; [| split; [| lra]].
  - rewrite (areaOf_value (utily := Model.utily) (points_ := Model.pole_iff_wrap)
               (base := Model.base) (mkPoints equator false) 1 true 3
               (mkPoints equator false) Model_unrollPI_unrolls eq_refl eq_refl
               one_le_three).
    cbn [ispolar Model.pole_iff_wrap items]. rewrite excess_sum_equator.
    f_equal. replace (0 * 1 ^ 2) with 0 by ring. apply Rabs_R0.
  - unfold areaOf_same_wrap. cbn [points2 Model.base]. unfold Model.points2.
    cbn [items equator length Nat.ltb Nat.leb bind].
    unfold isPoleEnclosedBy. cbn [ispolar Model.pole_iff_wrap].
    fold equator. rewrite excess_sum_equator, Rabs_R0. f_equal.
    replace (0 - 2 * PI) with (- (2 * PI)) by ring.
    rewrite Rabs_Ropp, Rabs_pos_eq by lra. ring.
Qed.

(** * Further properties of the code *)

(** ** Vectors of points and of great circles *)

Lemma sin2_cos2' (x : R) : sin x * sin x + cos x * cos x = 1.
Proof. pose proof (sin2_cos2 x) as H. unfold Rsqr in H. exact H. Qed.

(** X1.  For every point and bearing, the vector [greatCircle] returns has
    the length 1 and is orthogonal to the vector [toVector3d] of the point:
    it is normal to a great circle through the point. *)
Theorem greatCircle_unit_orthogonal (p : LatLon) (bearing : R) :
  length3 (greatCircle p bearing) = 1
  /\ dot (greatCircle p bearing) (toVector3d p) = 0.
Proof.
  unfold length3, greatCircle, toVector3d, to3xyz, to2ab, dot. cbn [vx vy vz].
  pose proof (sin2_cos2' (radians (lat p))) as Ha.
  pose proof (sin2_cos2' (radians (lon p))) as Hb.
  pose proof (sin2_cos2' (radians bearing)) as Ht.
  set (ca := cos (radians (lat p))) in *. set (sa := sin (radians (lat p))) in *.
  set (cb := cos (radians (lon p))) in *. set (sb := sin (radians (lon p))) in *.
  set (ct := cos (radians bearing)) in *. set (st := sin (radians bearing)) in *.
  split.
  - rewrite <- sqrt_1. f_equal.
    replace ((sb * ct - cb * sa * st) * (sb * ct - cb * sa * st)
             + (- cb * ct - sb * sa * st) * (- cb * ct - sb * sa * st)
             + ca * st * (ca * st))
      with (ct * ct * (sb * sb + cb * cb)
            + st * st * (sa * sa * (sb * sb + cb * cb) + ca * ca)) by ring.
    rewrite Hb, !Rmult_1_r, Ha. lra.
  - replace ((sb * ct - cb * sa * st) * (ca * cb)
             + (- cb * ct - sb * sa * st) * (ca * sb) + ca * st * sa)
      with (ca * sa * st * (1 - (sb * sb + cb * cb))) by ring.
    rewrite Hb. ring.
Qed.

(** ** Destinations *)

Lemma degrees_radians (x : R) : degrees (radians x) = x.
Proof. unfold radians, degrees. field. apply PI_neq0. Qed.

Lemma radians_valid_lat (p : LatLon) :
  valid_lat p -> - (PI / 2) <= radians (lat p) <= PI / 2.
Proof.
  intros [Hl Hu]. unfold radians. pose proof PI_RGT_0. split; nra.
Qed.

Section Destinations.

Context {formy : Formy} {utily : Utily} {points_ : Points} {base : SphericalBase}.

(** X2.  [destination] checks no radius, it divides the distance by it: for
    the radius 0 it raises [ZeroDivisionError], whatever the distance.  For
    every other radius, also a negative one, the only error it can raise is
    the domain error of [asin], and a point it returns has the latitude
    [degrees90 a] for an angle a in [-PI/2, PI/2] and the given height or else
    the height of the start.  The argument of [asin] is computed without a
    clamp: on real numbers it is in [-1, 1], but as floats compute it, it can
    exceed 1 by a rounding error for a destination at a pole; nothing is
    stated here on when the domain error is raised. *)
Theorem destination_radius (self : LatLon) (distance bearing radius : R)
    (height_ : option R) :
  (radius = 0 ->
   destination self distance bearing radius height_ = Raise ZeroDivisionError)
  /\ (radius <> 0 ->
      destination self distance bearing radius height_
      = Raise (ValueError MathDomain)
      \/ exists a b,
           - (PI / 2) <= a <= PI / 2
           /\ destination self distance bearing radius height_
              = Ok (mkLatLon (degrees90 a) (degrees180 b)
                      (match height_ with None => height self | Some h => h end))).
Proof.
  unfold destination, to2ab. split; intros Hr.
  - unfold py_div. destruct (Req_dec_T radius 0); [reflexivity | contradiction].
  - rewrite py_div_ok by assumption. cbn [bind]. unfold _destination2, py_asin.
    destruct (Rle_dec (-1) _); [| left; reflexivity].
    destruct (Rle_dec _ 1); [| left; reflexivity].
    right. cbn [bind]. do 2 eexists. split; [apply asin_bound | reflexivity].
Qed.

(** X3.  The destination at the distance 0 is the start, on every bearing
    and for every radius other than 0, for a start with a latitude in
    [-90, 90] whose coordinates the normalizers [degrees90] and [degrees180]
    leave as they are. *)
Theorem destination_distance_0 (self : LatLon) (bearing radius : R) :
  radius <> 0 -> valid_lat self -> normalizers_keep self ->
  destination self 0 bearing radius None = Ok self.
Proof.
  intros Hr Hv [Hlat Hlon]. unfold destination, to2ab.
  rewrite py_div_ok by assumption. cbn [bind].
  replace (0 / radius) with 0 by (field; assumption).
  unfold _destination2. rewrite sin_0, cos_0.
  set (a := radians (lat self)). set (t := radians bearing).
  replace (cos t * 0 * cos a + 1 * sin a) with (sin a) by ring.
  rewrite py_asin_ok by apply SIN_bound. cbn [bind].
  rewrite asin_sin by (apply radians_valid_lat; assumption).
  replace (sin t * 0 * cos a) with 0 by ring.
  assert (Hd : atan2 0 (1 - sin a * sin a) = 0).
  { pose proof (sin2_cos2' a) as H.
    replace (1 - sin a * sin a) with (cos a * cos a) by lra.
    destruct (Req_dec_T (cos a) 0) as [-> | Hc].
    - rewrite Rmult_0_l. apply atan2_0_0.
    - apply atan2_0_pos. nra. }
  rewrite Hd. fold a in Hlat. rewrite Hlat.
  replace (radians (lon self) + 0) with (radians (lon self) + 2 * IZR 0 * PI) by ring.
  rewrite Hlon. destruct self. reflexivity.
Qed.

End Destinations.

(** ** Track distances *)

Lemma cos_asin_sqr (u : R) : -1 <= u <= 1 -> cos (asin u) * cos (asin u) = 1 - u * u.
Proof.
  intros Hu. pose proof (sin2_cos2' (asin u)) as H. rewrite sin_asin in H by assumption.
  lra.
Qed.

Lemma cos_asin_nonneg (u : R) : 0 <= cos (asin u).
Proof.
  pose proof (asin_bound u) as [Hl Hh]. apply cos_ge_0; lra.
Qed.

Section TrackProperties.

Context {formy : Formy} {utily : Utily} {points_ : Points} {base : SphericalBase}.

(** X4.  For every radius of at least EPS both track distances are returned
    and bounded: the cross-track distance is at most a quarter of a great
    circle, PI/2 * radius, and the along-track distance at most half of one,
    PI * radius, in absolute value. *)
Theorem track_distances_bounded (self start end_ : LatLon) (radius : R)
    (wrap : bool) :
  EPS <= radius ->
  exists cross along,
    crossTrackDistanceTo self start end_ radius wrap = Ok cross
    /\ Rabs cross <= PI / 2 * radius
    /\ alongTrackDistanceTo self start end_ radius wrap = Ok along
    /\ Rabs along <= PI * radius.
Proof.
  intros Hr. pose proof EPS_pos as He. pose proof PI_RGT_0 as Hpi.
  rewrite crossTrackDistanceTo_value by assumption.
  pose proof (alongTrackDistanceTo_value self start end_ radius wrap Hr) as Ha.
  cbv zeta in Ha. rewrite Ha. clear Ha.
  do 2 eexists. split; [reflexivity |]. split; [| split; [reflexivity |]].
  - rewrite Rabs_mult, (Rabs_pos_eq radius) by lra.
    apply Rmult_le_compat_r; [lra |].
    unfold track_x. pose proof (asin_bound
      (sin (track_r self start wrap)
       * sin (track_bearing start self wrap - track_bearing start end_ wrap))) as [Hl Hu].
    apply Rabs_le. lra.
  - destruct (Rle_dec _ EPS).
    + rewrite Rabs_R0. nra.
    + rewrite !Rabs_mult, (Rabs_pos_eq radius) by lra.
      apply Rmult_le_compat_r; [lra |].
      match goal with
      | |- Rabs (sgn ?s) * Rabs (acos ?q) <= PI =>
          pose proof (acos_bound q) as [Hl Hu];
          assert (Hs : Rabs (sgn s) = 1)
            by (unfold sgn; destruct (Rle_dec 0 s);
                [apply Rabs_R1 | unfold Rabs; destruct (Rcase_abs (-1)); lra]);
          rewrite Hs, (Rabs_pos_eq (acos q)) by lra
      end.
      lra.
Qed.

(** The ratio cos r / cos x of [alongTrackDistanceTo] is in [-1, 1]. *)
Lemma along_ratio_bound (r th : R) :
  let x := asin (sin r * sin th) in
  cos x <> 0 -> -1 <= cos r / cos x <= 1.
Proof.
  intros x Hx. pose proof (cos_asin_nonneg (sin r * sin th)) as Hc. fold x in Hc.
  pose proof (cos_asin_sqr (sin r * sin th) (sin_mult_sin_bound r th)) as Hs.
  fold x in Hs.
  pose proof (sin2_cos2' r) as Hr. pose proof (sin2_cos2' th) as Ht.
  assert (Hle : cos r * cos r <= cos x * cos x).
  { rewrite Hs.
    assert (0 <= sin r * sin r * (cos th * cos th))
      by (apply Rmult_le_pos; apply Rle_0_sqr).
    nra. }
  assert (Hpos : 0 < cos x) by lra.
  assert (Habs : - cos x <= cos r <= cos x) by (split; nra).
  split.
  - apply (Rmult_le_reg_r (cos x)); [assumption |].
    replace (cos r / cos x * cos x) with (cos r) by (field; lra). lra.
  - apply (Rmult_le_reg_r (cos x)); [assumption |].
    replace (cos r / cos x * cos x) with (cos r) by (field; lra). lra.
Qed.

Lemma cos_sgn_mult (s x : R) : cos (sgn s * x) = cos x.
Proof.
  unfold sgn. destruct (Rle_dec 0 s).
  - f_equal. ring.
  - replace (-1 * x) with (- x) by ring. apply cos_neg.
Qed.

(** X5.  The two track distances and the distance from the start are the
    sides of a right spherical triangle: for a radius of at least EPS and a
    cross-track angle x with |cos x| > EPS,
    cos r = cos (cross / radius) * cos (along / radius), with r the angular
    distance from the start to the point. *)
Theorem track_distances_pythagoras (self start end_ : LatLon) (radius : R)
    (wrap : bool) :
  EPS <= radius ->
  EPS < Rabs (cos (track_x self start end_ wrap)) ->
  exists along cross,
    alongTrackDistanceTo self start end_ radius wrap = Ok along
    /\ crossTrackDistanceTo self start end_ radius wrap = Ok cross
    /\ cos (track_r self start wrap) = cos (cross / radius) * cos (along / radius).
Proof.
  intros Hr Hx. pose proof EPS_pos as He.
  rewrite crossTrackDistanceTo_value by assumption.
  pose proof (alongTrackDistanceTo_value self start end_ radius wrap Hr) as Ha.
  cbv zeta in Ha. fold (track_x self start end_ wrap) in Ha.
  unfold track_x in Ha. fold (track_x self start end_ wrap) in Ha.
  rewrite Ha. clear Ha.
  set (x := track_x self start end_ wrap) in *.
  destruct (Rle_dec (Rabs (cos x)) EPS) as [Hc | Hc]; [lra |].
  do 2 eexists. split; [reflexivity |]. split; [reflexivity |].
  assert (Hcx : cos x <> 0).
  { intros E. rewrite E, Rabs_R0 in Hx. lra. }
  replace (x * radius / radius) with x by (field; lra).
  match goal with
  | |- _ = _ * cos (?s * ?t * radius / radius) =>
      replace (s * t * radius / radius) with (s * t) by (field; lra)
  end.
  rewrite cos_sgn_mult.
  rewrite clamp1_id by (apply along_ratio_bound; exact Hcx).
  rewrite cos_acos by (apply along_ratio_bound; exact Hcx).
  field. exact Hcx.
Qed.

(** X6.  The end of a path is on the path, at its full length: for a radius
    of at least EPS its cross-track distance is 0 and its along-track distance
    is [distanceTo] from the start to the end, when [haversine_] gives an
    angular distance in [0, PI]. *)
Theorem track_distances_of_end (start end_ : LatLon) (radius : R) (wrap : bool) :
  EPS <= radius ->
  0 <= angular_separation start end_ wrap <= PI ->
  crossTrackDistanceTo end_ start end_ radius wrap = Ok 0
  /\ alongTrackDistanceTo end_ start end_ radius wrap
     = Ok (distanceTo start end_ radius wrap).
Proof.
  intros Hr Hsep. pose proof EPS_pos as He. pose proof EPS_small as Hs.
  assert (Hx : track_x end_ start end_ wrap = 0).
  { unfold track_x. rewrite Rminus_diag, sin_0, Rmult_0_r. apply asin_0. }
  split.
  - rewrite crossTrackDistanceTo_value by assumption. rewrite Hx. f_equal. ring.
  - pose proof (alongTrackDistanceTo_value end_ start end_ radius wrap Hr) as Ha.
    cbv zeta in Ha. rewrite Ha. clear Ha.
    rewrite Rminus_diag, sin_0, Rmult_0_r, asin_0, cos_0.
    destruct (Rle_dec (Rabs 1) EPS) as [Hc | Hc];
      [rewrite Rabs_R1 in Hc; lra |].
    rewrite distanceTo_separation. f_equal. unfold track_r in *.
    set (r := angular_separation start end_ wrap) in *.
    replace (cos r / 1) with (cos r) by field.
    rewrite clamp1_id by apply COS_bound.
    rewrite acos_cos by assumption.
    unfold sgn. destruct (Rle_dec 0 1); [ring | lra].
Qed.

End TrackProperties.

(** ** Perimeters *)

Section Perimeters.

Context {formy : Formy} {utily : Utily} {points_ : Points} {base : SphericalBase}.

(** X7.  The perimeter of an open path of two points is [distanceTo] from
    the first to the second, for every radius and wrap flag. *)
Theorem perimeterOf_two_points (points pts : PointSeq) (p q : LatLon)
    (radius : R) (wrap : bool) :
  points2 points false = Ok (2%nat, pts) ->
  items pts = [p; q] ->
  perimeterOf points false radius wrap = Ok (distanceTo p q radius wrap).
Proof.
  intros Hp Hi. unfold perimeterOf. rewrite Hp. cbn [bind].
  unfold _rads, _imdex2, range2. rewrite Hi. cbn [Nat.sub seq _rads_from].
  change 0%Z with (Z.of_nat 0).
  rewrite (getitem_nth [p; q] 0 p eq_refl). cbn [bind]. rewrite Hi.
  rewrite (getitem_nth [p; q] 1 q eq_refl). cbn [bind].
  unfold distanceTo, to2ab.
  destruct (unrollPI (radians (lon p)) (radians (lon q)) wrap) as [db b2].
  cbn [bind]. unfold fsum. cbn [fold_right]. f_equal. ring.
Qed.


(** X8.  Closing a polygon adds the edge from the last point to the first:
    without wrapping, the closed perimeter is [distanceTo] from the last point
    to the first plus the open perimeter.  [unrollPI] without wrapping is
    taken to give the plain difference. *)
Theorem perimeterOf_closed_open (points pts : PointSeq) (n : nat) (radius : R) :
  unrollPI_plain ->
  points2 points true = Ok (n, pts) ->
  points2 points false = Ok (n, pts) ->
  n = length (items pts) -> (1 <= n)%nat ->
  exists first last_ open,
    nth_error (items pts) 0 = Some first
    /\ nth_error (items pts) (n - 1) = Some last_
    /\ perimeterOf points false radius false = Ok open
    /\ perimeterOf points true radius false
       = Ok (distanceTo last_ first radius false + open).
Proof.
  intros Hu Ht Hf Hn H1.
  destruct (nth_error_lt (items pts) 0 ltac:(lia)) as [p0 Hp0].
  assert (Hne : items pts <> []).
  { intros E. rewrite E in Hn. cbn in Hn. lia. }
  exists p0, (last (items pts) p0).
  destruct (_rads_from_returns pts false (n - 1) 1
              (radians (lat p0)) (radians (lon p0)) ltac:(lia)) as [rs Hrs].
  exists (fsum rs * radius).
  split; [exact Hp0 |].
  split; [rewrite Hn; apply nth_error_last; exact Hne |].
  split.
  - unfold perimeterOf. rewrite Hf. cbn [bind]. unfold _rads, _imdex2, range2.
    change 0%Z with (Z.of_nat 0). rewrite (getitem_nth _ 0 _ Hp0). cbn [bind].
    unfold to2ab. rewrite Hrs. reflexivity.
  - unfold perimeterOf. rewrite Ht. cbn [bind]. unfold _rads, _imdex2, range2.
    rewrite Hn at 1. rewrite (getitem_last _ p0 Hne). cbn [bind].
    rewrite Nat.sub_0_r. destruct n as [| n']; [lia |].
    cbn [seq _rads_from]. change 0%Z with (Z.of_nat 0) in *.
    rewrite (getitem_nth _ 0 _ Hp0). cbn [bind]. unfold to2ab at 1 2.
    rewrite Hu. replace (S n' - 1)%nat with n' in Hrs by lia.
    rewrite Hrs. cbn [bind]. unfold distanceTo, to2ab. rewrite Hu.
    unfold fsum. cbn [fold_right]. fold (fsum rs). f_equal. ring.
Qed.

End Perimeters.

(** ** The area of a polygon and its first point *)

Lemma polygon_sum_rotated (f : LatLon * LatLon -> R) (a : LatLon) (l : list LatLon) :
  fsum (map f (polygon_edges (l ++ [a]))) = fsum (map f (polygon_edges (a :: l))).
Proof.
  assert (H1 : polygon_edges (l ++ [a]) = edges_from a (l ++ [a])).
  { unfold polygon_edges. destruct (l ++ [a]) as [| h t] eqn:E.
    - destruct l; discriminate.
    - rewrite <- E, last_last. reflexivity. }
  rewrite H1. fold (path_sum f a (l ++ [a])). rewrite path_sum_app.
  unfold polygon_edges. rewrite last_cons. cbn [edges_from map].
  unfold path_sum. cbn [edges_from map]. unfold fsum. cbn [fold_right]. ring.
Qed.

Section Rotation.

Context {formy : Formy} {utily : Utily} {points_ : Points} {base : SphericalBase}.

Lemma excess_sum_rotated (wrap : bool) (l : list LatLon) :
  excess_sum wrap (tl l ++ firstn 1 l) = excess_sum wrap l.
Proof.
  destruct l as [| a l]; [reflexivity |].
  cbn [tl firstn]. unfold excess_sum. apply polygon_sum_rotated.
Qed.

(** X9.  The area does not depend on the point a polygon starts with:
    [areaOf] of the points from the second one on, followed by the first one,
    is [areaOf] of the points.  [points2] is taken to accept both sequences as
    they are, and the pole test not to depend on the starting point. *)
Theorem areaOf_rotated (points : PointSeq) (radius : R) (wrap : bool)
    (n : nat) (pts : PointSeq) :
  unrollPI_unrolls ->
  points2 points true = Ok (n, pts) ->
  n = length (items pts) -> (3 <= n)%nat ->
  points2 (rotated points) true = Ok (n, rotated pts) ->
  ispolar (rotated pts) false = ispolar pts false ->
  areaOf (rotated points) radius wrap = areaOf points radius wrap.
Proof.
  intros Hu Hp Hn H3 Hp' Hpole.
  assert (Hlen : n = length (items (rotated pts))).
  { unfold rotated. cbn [items]. destruct (items pts) as [| a l]; [cbn in Hn; lia |].
    cbn [tl firstn]. rewrite length_app. cbn [length] in *. lia. }
  rewrite (areaOf_value points radius wrap n pts Hu Hp Hn) by lia.
  rewrite (areaOf_value (rotated points) radius wrap n (rotated pts) Hu Hp' Hlen) by lia.
  rewrite Hpole. unfold rotated at 1 2. cbn [items].
  rewrite excess_sum_rotated. reflexivity.
Qed.

End Rotation.

(** ** The two branches of [isenclosedBy] *)

Lemma gc_loop_edges (points : PointSeq) :
  forall (k i : nat) (prev : LatLon) (acc : list Vector3d),
    (i + k = length (items points))%nat ->
    isenclosedBy_gc_loop points (seq i k) acc (toVector3d prev)
    = Ok (acc ++ map crossf (edges_from prev (skipn i (items points)))).
Proof.
  induction k as [| k IH]; intros i prev acc Hlen.
  - cbn [seq isenclosedBy_gc_loop]. rewrite skipn_all2 by lia. cbn. rewrite app_nil_r.
    reflexivity.
  - cbn [seq isenclosedBy_gc_loop].
    destruct (nth_error_lt (items points) i ltac:(lia)) as [p Hp].
    rewrite (getitem_nth _ _ _ Hp), (skipn_nth_cons _ _ _ Hp). cbn [bind].
    rewrite (IH (S i) p) by lia. cbn [edges_from map]. rewrite <- app_assoc.
    reflexivity.
Qed.

Lemma numpy_loop_edges (points : PointSeq) (n0 : Vector3d) (t0 : bool) :
  forall (k i : nat) (prev : LatLon) (gc1 : Vector3d),
    (i + k = length (items points))%nat ->
    isenclosedBy_numpy_loop points n0 t0 (seq i k) (toVector3d prev) gc1
    = numpy_on_circles n0 t0 gc1
        (map crossf (edges_from prev (skipn i (items points)))).
Proof.
  induction k as [| k IH]; intros i prev gc1 Hlen.
  - cbn [seq isenclosedBy_numpy_loop]. rewrite skipn_all2 by lia. reflexivity.
  - cbn [seq isenclosedBy_numpy_loop].
    destruct (nth_error_lt (items points) i ltac:(lia)) as [p Hp].
    rewrite (getitem_nth _ _ _ Hp), (skipn_nth_cons _ _ _ Hp). cbn [bind].
    cbn [edges_from map numpy_on_circles]. unfold on_right, crossf at 1 2 3.
    cbn [fst snd].
    destruct (negb _); [reflexivity |].
    destruct (Rlt_dec _ 0); [reflexivity |].
    apply IH. lia.
Qed.

Lemma side_loop_forallb (gc : list Vector3d) (n0 : Vector3d) (t0 : bool) :
  forall (k i : nat),
    (i + k = length gc)%nat ->
    isenclosedBy_side_loop gc n0 t0 (seq i k)
    = Ok (if forallb (fun g => eqb (on_right n0 g) t0) (skipn i gc)
          then None else Some false).
Proof.
  induction k as [| k IH]; intros i Hlen.
  - cbn [seq isenclosedBy_side_loop]. rewrite skipn_all2 by lia. reflexivity.
  - cbn [seq isenclosedBy_side_loop].
    destruct (nth_error_lt gc i ltac:(lia)) as [g Hg].
    rewrite (getitem_nth _ _ _ Hg), (skipn_nth_cons _ _ _ Hg). cbn [bind forallb].
    fold (on_right n0 g).
    destruct (eqb (on_right n0 g) t0); cbn [negb andb]; [| reflexivity].
    apply IH. lia.
Qed.

(** With all edges on the side [t0], the NumPy loop is the convexity loop. *)
Lemma numpy_on_circles_same (n0 : Vector3d) (t0 : bool) (gcs : list Vector3d) :
  forall gc1,
    forallb (fun g => eqb (on_right n0 g) t0) gcs = true ->
    numpy_on_circles n0 t0 gc1 gcs = isenclosedBy_convex_loop n0 gcs gc1.
Proof.
  induction gcs as [| g gcs IH]; intros gc1 H; [reflexivity |].
  cbn [forallb] in H. apply andb_prop in H as [Hg Hall].
  cbn [numpy_on_circles isenclosedBy_convex_loop]. rewrite Hg. cbn [negb].
  destruct (Rlt_dec _ 0); [reflexivity |]. apply IH, Hall.
Qed.

(** With an edge on another side, the NumPy loop returns [False] or raises. *)
Lemma numpy_on_circles_other (n0 : Vector3d) (t0 : bool) (gcs : list Vector3d) :
  forall gc1,
    forallb (fun g => eqb (on_right n0 g) t0) gcs = false ->
    numpy_on_circles n0 t0 gc1 gcs = Ok (Some false)
    \/ numpy_on_circles n0 t0 gc1 gcs = Raise (ValueError NonConvex).
Proof.
  induction gcs as [| g gcs IH]; intros gc1 H; [discriminate |].
  cbn [forallb] in H. cbn [numpy_on_circles].
  destruct (eqb (on_right n0 g) t0); cbn [negb andb] in *; [| left; reflexivity].
  destruct (Rlt_dec _ 0); [right; reflexivity |]. apply IH, H.
Qed.

Lemma forallb_same_side (n0 : Vector3d) (gcs : list Vector3d) (g0 d : Vector3d) :
  forallb (fun g => eqb (on_right n0 g) (on_right n0 (last (g0 :: gcs) d))) (g0 :: gcs)
  = forallb (fun g => eqb (on_right n0 g) (on_right n0 g0)) gcs.
Proof.
  set (s := on_right n0).
  assert (Hall : forall t l, forallb (fun g => eqb (s g) t) l = true ->
                        forall g, In g l -> s g = t).
  { intros t l H g Hin. rewrite forallb_forall in H. apply eqb_prop, H, Hin. }
  assert (Hlast : In (last (g0 :: gcs) d) (g0 :: gcs)).
  { destruct (@exists_last _ (g0 :: gcs) ltac:(discriminate)) as [l' [z E]].
    rewrite E, last_last. apply in_or_app. right. left. reflexivity. }
  destruct (forallb (fun g => eqb (s g) (s g0)) gcs) eqn:E0.
  - assert (Hz : s (last (g0 :: gcs) d) = s g0).
    { destruct Hlast as [<- | Hin]; [reflexivity |]. apply (Hall _ _ E0 _ Hin). }
    rewrite Hz. cbn [forallb]. rewrite eqb_reflx, E0. reflexivity.
  - destruct (forallb (fun g => eqb (s g) (s (last (g0 :: gcs) d))) (g0 :: gcs)) eqn:E1;
      [| reflexivity].
    exfalso. pose proof (Hall _ _ E1) as H1.
    assert (Hg0 : s g0 = s (last (g0 :: gcs) d)) by (apply H1; left; reflexivity).
    assert (forallb (fun g => eqb (s g) (s g0)) gcs = true).
    { apply forallb_forall. intros g Hin. rewrite Hg0.
      rewrite (H1 g (or_intror Hin)). apply eqb_reflx. }
    congruence.
Qed.

Lemma last_map {A B : Type} (f : A -> B) (l : list A) (d : A) :
  last (map f l) (f d) = f (last l d).
Proof.
  induction l as [| a l IH]; [reflexivity |].
  destruct l as [| b l]; [reflexivity |]. exact IH.
Qed.

Lemma edges_from_length (l : list LatLon) :
  forall prev, length (edges_from prev l) = length l.
Proof.
  induction l as [| b l IH]; intros prev; cbn [edges_from length]; [reflexivity |].
  f_equal. apply IH.
Qed.

Lemma edges_from_last (l : list LatLon) :
  forall prev d, l <> [] ->
    last (edges_from prev l) d = (last (removelast l) prev, last l prev).
Proof.
  induction l as [| b l IH]; intros prev d Hl; [congruence |].
  destruct l as [| c l]; [reflexivity |].
  change (edges_from prev (b :: c :: l)) with ((prev, b) :: edges_from b (c :: l)).
  change (removelast (b :: c :: l)) with (b :: removelast (c :: l)).
  rewrite (last_cons (edges_from b (c :: l))), (last_cons (removelast (c :: l))),
    (last_cons (c :: l)).
  apply IH. discriminate.
Qed.

Lemma nth_error_before_last {A : Type} (l : list A) (d : A) :
  (2 <= length l)%nat ->
  nth_error l (length l - 2) = Some (last (removelast l) d).
Proof.
  intros H2.
  destruct (@exists_last _ l) as [l' [z ->]]; [destruct l; [cbn in H2; lia | discriminate] |].
  rewrite removelast_last, length_app in *. cbn [length] in *.
  rewrite nth_error_app1 by lia.
  replace (length l' + 1 - 2)%nat with (length l' - 1)%nat by lia.
  apply nth_error_last. destruct l'; [cbn in H2; lia | discriminate].
Qed.

Lemma edge_circles_length (l : list LatLon) : length (edge_circles l) = length l.
Proof.
  unfold edge_circles, polygon_edges. rewrite length_map.
  destruct l as [| a l]; [reflexivity |]. apply edges_from_length.
Qed.

Lemma isenclosedBy_plain_circles (n0 : Vector3d) (n : nat) (points : PointSeq) :
  n = length (items points) -> (2 <= n)%nat ->
  isenclosedBy_plain n0 n points
  = if forallb (fun g => eqb (on_right n0 g)
                           (on_right n0 (hd n0 (edge_circles (items points)))))
         (tl (edge_circles (items points)))
    then isenclosedBy_convex_loop n0 (edge_circles (items points))
           (last (edge_circles (items points)) n0)
    else Ok (Some false).
Proof.
  intros Hn H2. pose proof (edge_circles_length (items points)) as Hlen.
  unfold edge_circles, polygon_edges in *.
  destruct (items points) as [| a l] eqn:El; [cbn in Hn; lia |].
  set (z := last (a :: l) a) in *.
  set (gcs := map crossf (edges_from z (a :: l))) in *.
  assert (Hz : getitem (items points) (Z.of_nat n - 1) = Ok z).
  { rewrite Hn, El. apply getitem_last. discriminate. }
  assert (Hgc : isenclosedBy_gc_loop points (range n) [] (toVector3d z) = Ok gcs).
  { unfold range, range2. rewrite Nat.sub_0_r.
    rewrite (gc_loop_edges points n 0 z []) by (rewrite El; lia).
    rewrite El. reflexivity. }
  unfold isenclosedBy_plain. rewrite Hz. cbn [bind]. rewrite Hgc. cbn [bind].
  change 0%Z with (Z.of_nat 0).
  rewrite (getitem_nth gcs 0 (crossf (z, a)) eq_refl). cbn [bind].
  fold (on_right n0 (crossf (z, a))). unfold range2.
  rewrite (side_loop_forallb gcs n0 _ (n - 1) 1) by lia. cbn [bind].
  change (skipn 1 gcs) with (tl gcs). change (hd n0 gcs) with (crossf (z, a)).
  destruct (forallb _ _); [| reflexivity].
  rewrite Hn at 1. rewrite <- Hlen. rewrite (getitem_last gcs n0) by discriminate.
  reflexivity.
Qed.

Lemma isenclosedBy_numpy_circles (n0 : Vector3d) (n : nat) (points : PointSeq) :
  n = length (items points) -> (2 <= n)%nat ->
  isenclosedBy_numpy n0 n points
  = numpy_on_circles n0
      (on_right n0 (last (edge_circles (items points)) n0))
      (last (edge_circles (items points)) n0) (edge_circles (items points)).
Proof.
  intros Hn H2. unfold edge_circles, polygon_edges.
  destruct (items points) as [| a l] eqn:El; [cbn in Hn; lia |].
  set (z := last (a :: l) a).
  set (y := last (removelast (a :: l)) z).
  set (gcs := map crossf (edges_from z (a :: l))).
  assert (Hz : getitem (items points) (Z.of_nat n - 1) = Ok z).
  { rewrite Hn, El. apply getitem_last. discriminate. }
  assert (Hy : getitem (items points) (Z.of_nat n - 2) = Ok y).
  { replace (Z.of_nat n - 2)%Z with (Z.of_nat (n - 2)) by lia.
    apply getitem_nth. rewrite Hn, El. apply nth_error_before_last. lia. }
  assert (Hgl : last gcs n0 = crossf (y, z)).
  { unfold gcs. rewrite (last_nonempty _ n0 (crossf (z, a))) by discriminate.
    rewrite last_map. f_equal.
    rewrite edges_from_last by discriminate.
    rewrite (last_nonempty (a :: l) z a) by discriminate. reflexivity. }
  unfold isenclosedBy_numpy. rewrite Hz, Hy. cbn [bind].
  unfold range, range2. rewrite Nat.sub_0_r.
  rewrite (numpy_loop_edges points n0 _ n 0 z) by (rewrite El; lia).
  rewrite El, Hgl. reflexivity.
Qed.

Lemma same_side_as_last (n0 : Vector3d) (gcs : list Vector3d) :
  gcs <> [] ->
  forallb (fun g => eqb (on_right n0 g) (on_right n0 (last gcs n0))) gcs
  = forallb (fun g => eqb (on_right n0 g) (on_right n0 (hd n0 gcs))) (tl gcs).
Proof.
  intros Hne. destruct gcs as [| g0 l]; [congruence |]. apply forallb_same_side.
Qed.


Lemma convex_loop_outcomes (n0 : Vector3d) (gcs : list Vector3d) :
  forall gc1,
    isenclosedBy_convex_loop n0 gcs gc1 = Ok None
    \/ isenclosedBy_convex_loop n0 gcs gc1 = Raise (ValueError NonConvex).
Proof.
  induction gcs as [| g gcs IH]; intros gc1; [left; reflexivity |].
  cbn [isenclosedBy_convex_loop].
  destruct (Rlt_dec _ 0); [right; reflexivity | apply IH].
Qed.

Lemma numpy_on_circles_outcomes (n0 : Vector3d) (t0 : bool) (gcs : list Vector3d) :
  forall gc1,
    numpy_on_circles n0 t0 gc1 gcs = Ok None
    \/ numpy_on_circles n0 t0 gc1 gcs = Ok (Some false)
    \/ numpy_on_circles n0 t0 gc1 gcs = Raise (ValueError NonConvex).
Proof.
  induction gcs as [| g gcs IH]; intros gc1; [left; reflexivity |].
  cbn [numpy_on_circles].
  destruct (negb _); [right; left; reflexivity |].
  destruct (Rlt_dec _ 0); [right; right; reflexivity | apply IH].
Qed.

(** X10.  On every polygon of at least 2 points the two branches of
    [isenclosedBy] have the same outcome, with one exception: the branch for
    NumPy arrays may raise the non-convex error where the branch for plain
    sequences returns [False], a point being on another side of a later edge.
    The result [None] of a branch is the [True] of [isenclosedBy]. *)
Theorem isenclosedBy_branches_related (n0 : Vector3d) (n : nat) (points : PointSeq) :
  n = length (items points) -> (2 <= n)%nat ->
  isenclosedBy_numpy n0 n points = isenclosedBy_plain n0 n points
  \/ (isenclosedBy_numpy n0 n points = Raise (ValueError NonConvex)
      /\ isenclosedBy_plain n0 n points = Ok (Some false)).
Proof.
  intros Hn H2.
  rewrite (isenclosedBy_numpy_circles n0 n points Hn H2).
  rewrite (isenclosedBy_plain_circles n0 n points Hn H2).
  pose proof (edge_circles_length (items points)) as Hlen.
  set (gcs := edge_circles (items points)) in *.
  rewrite <- (same_side_as_last n0 gcs) by (destruct gcs; [cbn in Hlen; lia | discriminate]).
  set (gl := last gcs n0).
  destruct (forallb (fun g => eqb (on_right n0 g) (on_right n0 gl)) gcs) eqn:E.
  - left. apply numpy_on_circles_same, E.
  - destruct (numpy_on_circles_other n0 _ gcs gl E) as [-> | ->].
    + left. reflexivity.
    + right. split; reflexivity.
Qed.

Section Outcomes.

Context {utily : Utily} {base : SphericalBase}.

(** X11.  On points that [points2] accepts, [isenclosedBy] returns [True]
    or [False] or raises the non-convex error: no index is out of range, on
    either branch. *)
Theorem isenclosedBy_outcomes (self : LatLon) (points pts : PointSeq) (n : nat) :
  points2 points true = Ok (n, pts) ->
  n = length (items pts) -> (2 <= n)%nat ->
  isenclosedBy self points = Ok true
  \/ isenclosedBy self points = Ok false
  \/ isenclosedBy self points = Raise (ValueError NonConvex).
Proof.
  intros Hp Hn H2. unfold isenclosedBy. rewrite Hp. cbn [bind].
  set (n0 := toVector3d self).
  assert (Hplain : isenclosedBy_plain n0 n pts = Ok None
                   \/ isenclosedBy_plain n0 n pts = Ok (Some false)
                   \/ isenclosedBy_plain n0 n pts = Raise (ValueError NonConvex)).
  { rewrite (isenclosedBy_plain_circles n0 n pts Hn H2).
    destruct (forallb _ _); [| right; left; reflexivity].
    destruct (convex_loop_outcomes n0 (edge_circles (items pts))
                (last (edge_circles (items pts)) n0)) as [-> | ->]; auto. }
  assert (Hnumpy : isenclosedBy_numpy n0 n pts = Ok None
                   \/ isenclosedBy_numpy n0 n pts = Ok (Some false)
                   \/ isenclosedBy_numpy n0 n pts = Raise (ValueError NonConvex)).
  { rewrite (isenclosedBy_numpy_circles n0 n pts Hn H2).
    apply numpy_on_circles_outcomes. }
  destruct (iterNumpy2 pts).
  - destruct Hnumpy as [-> | [-> | ->]]; cbn [bind]; auto.
  - destruct Hplain as [-> | [-> | ->]]; cbn [bind]; auto.
Qed.

End Outcomes.

(** ** Angles, full turns and [atan2] *)

Lemma sin_plus_Z_turns (x : R) (k : Z) : sin (x + 2 * IZR k * PI) = sin x.
Proof.
  destruct (Z_le_gt_dec 0 k) as [Hk | Hk].
  - rewrite <- (Z2Nat.id k Hk), <- INR_IZR_INZ. apply sin_period.
  - rewrite <- (sin_period (x + 2 * IZR k * PI) (Z.to_nat (- k))).
    rewrite INR_IZR_INZ, Z2Nat.id by lia. rewrite opp_IZR. f_equal. ring.
Qed.

Lemma cos_plus_Z_turns (x : R) (k : Z) : cos (x + 2 * IZR k * PI) = cos x.
Proof.
  destruct (Z_le_gt_dec 0 k) as [Hk | Hk].
  - rewrite <- (Z2Nat.id k Hk), <- INR_IZR_INZ. apply cos_period.
  - rewrite <- (cos_period (x + 2 * IZR k * PI) (Z.to_nat (- k))).
    rewrite INR_IZR_INZ, Z2Nat.id by lia. rewrite opp_IZR. f_equal. ring.
Qed.

Lemma hypot_0_0 : hypot 0 0 = 0.
Proof. unfold hypot. rewrite Rmult_0_l, Rplus_0_l. apply sqrt_0. Qed.

Lemma hypot_polar (c a : R) : 0 <= c -> hypot (c * cos a) (c * sin a) = c.
Proof.
  intros Hc. unfold hypot.
  replace (c * cos a * (c * cos a) + c * sin a * (c * sin a))
    with ((sin a * sin a + cos a * cos a) * (c * c)) by ring.
  rewrite sin2_cos2', Rmult_1_l. apply sqrt_square, Hc.
Qed.

(** [atan2] gives back the angle of a point in polar coordinates. *)
Lemma atan2_polar (c a : R) :
  0 < c -> - PI < a <= PI -> atan2 (c * sin a) (c * cos a) = a.
Proof.
  intros Hc [Hl Hu]. pose proof PI_RGT_0 as Hpi.
  assert (Hq : forall s co, co <> 0 -> c * s / (c * co) = s / co)
    by (intros; field; split; lra).
  destruct (Rlt_le_dec a (- (PI / 2))) as [H1 | H1].
  { (* third quadrant *)
    assert (Hcos : cos a < 0).
    { rewrite <- cos_neg. apply cos_lt_0; lra. }
    assert (Hsin : sin a < 0).
    { rewrite <- (Ropp_involutive (sin a)), <- sin_neg.
      pose proof (sin_gt_0 (- a) ltac:(lra) ltac:(lra)). lra. }
    unfold atan2.
    destruct (Rlt_dec 0 (c * cos a)); [nra |].
    destruct (Rlt_dec (c * cos a) 0); [| nra].
    destruct (Rle_dec 0 (c * sin a)); [nra |].
    rewrite Hq by lra. fold (tan a). rewrite <- (tan_plus_PI a).
    rewrite atan_tan by lra. ring. }
  destruct (Req_dec_T a (- (PI / 2))) as [E | E].
  { subst a. rewrite cos_neg, sin_neg, cos_PI2, sin_PI2. unfold atan2.
    rewrite Rmult_0_r.
    destruct (Rlt_dec 0 0); [lra |]. destruct (Rlt_dec 0 0); [lra |].
    destruct (Rlt_dec 0 (c * - (1))); [lra |].
    destruct (Rlt_dec (c * - (1)) 0); [reflexivity | lra]. }
  destruct (Rlt_le_dec a (PI / 2)) as [H2 | H2].
  { assert (Hcos : 0 < cos a) by (apply cos_gt_0; lra).
    rewrite atan2_pos by nra. rewrite Hq by lra. fold (tan a).
    apply atan_tan. lra. }
  destruct (Req_dec_T a (PI / 2)) as [E2 | E2].
  { subst a. rewrite cos_PI2, sin_PI2. unfold atan2. rewrite Rmult_0_r.
    destruct (Rlt_dec 0 0); [lra |]. destruct (Rlt_dec 0 0); [lra |].
    destruct (Rlt_dec 0 (c * 1)); [reflexivity | lra]. }
  (* second quadrant *)
  assert (Hcos : cos a < 0) by (apply cos_lt_0; lra).
  assert (Hsin : 0 <= sin a) by (apply sin_ge_0; lra).
  unfold atan2.
  destruct (Rlt_dec 0 (c * cos a)); [nra |].
  destruct (Rlt_dec (c * cos a) 0); [| nra].
  destruct (Rle_dec 0 (c * sin a)); [| nra].
  rewrite Hq by lra. fold (tan a).
  replace a with (a - PI + PI) at 1 by ring. rewrite tan_plus_PI.
  rewrite atan_tan by lra. ring.
Qed.

(** On latitudes the coefficient may be zero: at a pole the cosine is. *)
Lemma atan2_polar_lat (a : R) :
  - (PI / 2) <= a <= PI / 2 -> atan2 (sin a) (cos a) = a.
Proof.
  intros H. pose proof PI_RGT_0 as Hpi.
  rewrite <- (Rmult_1_l (sin a)), <- (Rmult_1_l (cos a)).
  apply atan2_polar; lra.
Qed.

Lemma radians_off_pole (p : LatLon) :
  off_pole p ->
  - (PI / 2) < radians (lat p) < PI / 2 /\ - PI < radians (lon p) <= PI.
Proof.
  intros [[H1 H2] [H3 H4]]. unfold radians. pose proof PI_RGT_0. repeat split; nra.
Qed.

Lemma favg_0 (v1 v2 : R) : favg v1 v2 0 = v1.
Proof. unfold favg. ring. Qed.

Lemma favg_1 (v1 v2 : R) : favg v1 v2 1 = v2.
Proof. unfold favg. ring. Qed.

Lemma favg_half_sym (v1 v2 : R) : favg v1 v2 (1 / 2) = favg v2 v1 (1 / 2).
Proof. unfold favg. field. Qed.

(** ** Crossing a parallel *)

Section Crossings.

Context {formy : Formy} {utily : Utily} {points_ : Points} {base : SphericalBase}.

Lemma crossingParallels_xyz (self other : LatLon) (lat_ : R) (wrap : bool) :
  crossingParallels self other lat_ wrap
  = let '(x, y, z) := crossing_xyz self other lat_ wrap in
    let h := hypot x y in
    if Rltb h EPS || Rltb h (Rabs z) then Ok None
    else
      let m := atan2 (- y) x + radians (lon self) in
      q <- py_div z h ;;
      Ok (Some (degrees180 (m - acos1 q), degrees180 (m + acos1 q))).
Proof.
  unfold crossingParallels, crossing_xyz, to2ab.
  destruct (unrollPI (radians (lon self)) (radians (lon other)) wrap) as [db b2].
  reflexivity.
Qed.

(** X12.  [crossingParallels] raises no error.  With x, y and z as the
    code computes them, h = hypot(x, y) and m = atan2(-y, x) + b1: it returns
    [None] when h < EPS or h < |z|; otherwise it returns the longitudes
    [degrees180 (m - d)] and [degrees180 (m + d)], on both sides of m, for the
    angle d in [0, PI] with h * cos d = z: the division is by an h of at least
    EPS, and the clamp of [acos1] changes nothing. *)
Theorem crossingParallels_result (self other : LatLon) (lat_ : R) (wrap : bool) :
  let '(x, y, z) := crossing_xyz self other lat_ wrap in
  let h := hypot x y in
  let m := atan2 (- y) x + radians (lon self) in
  ((h < EPS \/ h < Rabs z)
   /\ crossingParallels self other lat_ wrap = Ok None)
  \/ (EPS <= h /\ Rabs z <= h
      /\ exists d, 0 <= d <= PI /\ h * cos d = z
           /\ crossingParallels self other lat_ wrap
              = Ok (Some (degrees180 (m - d), degrees180 (m + d)))).
Proof.
  rewrite crossingParallels_xyz.
  destruct (crossing_xyz self other lat_ wrap) as [[x y] z]. cbv zeta.
  set (h := hypot x y). pose proof EPS_pos as He.
  unfold Rltb.
  destruct (Rlt_dec h EPS) as [H1 | H1]; [left; split; [lra | reflexivity] |].
  destruct (Rlt_dec h (Rabs z)) as [H2 | H2]; [left; split; [lra | reflexivity] |].
  right. cbn [orb]. split; [lra |]. split; [lra |].
  rewrite py_div_ok by lra. cbn [bind].
  assert (Hq : -1 <= z / h <= 1).
  { assert (Hz : - h <= z <= h) by (revert H2; unfold Rabs; destruct (Rcase_abs z); lra).
    split.
    - apply (Rmult_le_reg_r h); [lra |].
      replace (z / h * h) with z by (field; lra). lra.
    - apply (Rmult_le_reg_r h); [lra |].
      replace (z / h * h) with z by (field; lra). lra. }
  exists (acos (z / h)). split; [apply acos_bound |]. split.
  - rewrite cos_acos by assumption. field. lra.
  - unfold acos1. rewrite clamp1_id by assumption. reflexivity.
Qed.

(** X13.  [crossingParallels] returns [None] for the parallels of the
    poles, 90 and -90, for two points on the equator, whatever the parallel,
    also the equator itself, and for two points at the same latitude and
    longitude, which define no great circle. *)
Theorem crossingParallels_degenerate (self other : LatLon) (lat_ : R) (wrap : bool) :
  unrollPI_unrolls ->
  lat_ = 90 \/ lat_ = -90 \/ (lat self = 0 /\ lat other = 0)
  \/ (lat self = lat other /\ lon self = lon other) ->
  crossingParallels self other lat_ wrap = Ok None.
Proof.
  intros Hu Hc. rewrite crossingParallels_xyz. unfold crossing_xyz.
  assert (Hxy :
    sin (radians (lat self)) * cos (radians (lat other)) * cos (radians lat_)
      * sin (fst (unrollPI (radians (lon self)) (radians (lon other)) wrap)) = 0
    /\ sin (radians (lat self)) * cos (radians (lat other)) * cos (radians lat_)
         * cos (fst (unrollPI (radians (lon self)) (radians (lon other)) wrap))
       - cos (radians (lat self)) * sin (radians (lat other)) * cos (radians lat_) = 0).
  { destruct Hc as [-> | [-> | [[-> ->] | [Ea Eb]]]].
    - rewrite radians_90, cos_PI2. split; ring.
    - replace (radians (-90)) with (- (PI / 2)) by (unfold radians; field; apply PI_neq0).
      rewrite cos_neg, cos_PI2. split; ring.
    - rewrite radians_0, sin_0. split; ring.
    - destruct (Hu (radians (lon self)) (radians (lon other)) wrap) as [[k Hk] _].
      rewrite Hk, Ea, Eb, Rminus_diag, sin_plus_Z_turns, cos_plus_Z_turns, sin_0, cos_0.
      split; ring. }
  destruct Hxy as [-> ->]. cbv zeta. rewrite hypot_0_0.
  pose proof EPS_pos as He. unfold Rltb at 1.
  destruct (Rlt_dec 0 EPS); [reflexivity | lra].
Qed.

End Crossings.

(** ** Midpoints and intermediate points *)

Section Between.

Context {formy : Formy} {utily : Utily} {points_ : Points} {base : SphericalBase}.

(** X14.  The midpoint of a point and itself is the point, at the given
    height or else its own, for a point with a latitude in [-90, 90] whose
    coordinates the normalizers leave as they are; the poles included. *)
Theorem midpointTo_same (p : LatLon) (height_ : option R) (wrap : bool) :
  unrollPI_unrolls -> valid_lat p -> normalizers_keep p ->
  midpointTo p p height_ wrap
  = mkLatLon (lat p) (lon p) (match height_ with None => height p | Some h => h end).
Proof.
  intros Hu Hv [Hlat Hlon]. unfold midpointTo, to2ab.
  destruct (Hu (radians (lon p)) (radians (lon p)) wrap) as [[k Hk] _].
  destruct (unrollPI (radians (lon p)) (radians (lon p)) wrap) as [db b2].
  cbn [fst] in Hk. subst db. rewrite Rminus_diag.
  rewrite sin_plus_Z_turns, cos_plus_Z_turns, sin_0, cos_0.
  set (a := radians (lat p)) in *.
  pose proof (radians_valid_lat p Hv) as Ha. fold a in Ha.
  assert (Hc : 0 <= cos a) by (apply cos_ge_0; lra).
  replace (cos a * 1 + cos a) with (2 * cos a) by ring.
  replace (cos a * 0) with (2 * sin a * 0) by ring.
  assert (Hh : hypot (2 * cos a) (2 * sin a * 0) = 2 * cos a).
  { unfold hypot. replace (2 * cos a * (2 * cos a) + 2 * sin a * 0 * (2 * sin a * 0))
      with ((2 * cos a) * (2 * cos a)) by ring.
    apply sqrt_square. lra. }
  rewrite Hh. replace (sin a + sin a) with (2 * sin a) by ring.
  rewrite atan2_polar by (pose proof PI_RGT_0; lra).
  assert (Hb : atan2 (2 * sin a * 0) (2 * cos a) = 0).
  { rewrite Rmult_0_r. destruct (Req_dec_T (cos a) 0) as [-> | Hne].
    - rewrite Rmult_0_r. apply atan2_0_0.
    - apply atan2_0_pos. lra. }
  rewrite Hb, Hlat.
  replace (0 + radians (lon p)) with (radians (lon p) + 2 * IZR 0 * PI) by ring.
  rewrite Hlon. f_equal. destruct height_; [reflexivity |].
  unfold _havg. apply favg_same.
Qed.

(** X15.  The midpoint of two points has the same latitude and the same
    height from either point. *)
Theorem midpointTo_latitude_symmetric (p q : LatLon) (height_ : option R)
    (wrap : bool) :
  unrollPI_unrolls ->
  lat (midpointTo p q height_ wrap) = lat (midpointTo q p height_ wrap)
  /\ height (midpointTo p q height_ wrap) = height (midpointTo q p height_ wrap).
Proof.
  intros Hu. unfold midpointTo, to2ab.
  destruct (Hu (radians (lon p)) (radians (lon q)) wrap) as [[k Hk] _].
  destruct (Hu (radians (lon q)) (radians (lon p)) wrap) as [[k' Hk'] _].
  destruct (unrollPI (radians (lon p)) (radians (lon q)) wrap) as [db b2].
  destruct (unrollPI (radians (lon q)) (radians (lon p)) wrap) as [db' b2'].
  cbn [fst] in *. cbn [lat height]. split.
  - f_equal. rewrite (Rplus_comm (sin (radians (lat p)))). f_equal.
    unfold hypot. f_equal.
    assert (Ec : cos db' = cos db).
    { subst. rewrite !cos_plus_Z_turns, <- cos_neg. f_equal. ring. }
    rewrite Ec.
    pose proof (sin2_cos2' db) as H1. pose proof (sin2_cos2' db') as H2.
    rewrite Ec in H2.
    set (cp := cos (radians (lat p))). set (cq := cos (radians (lat q))).
    replace ((cq * cos db + cp) * (cq * cos db + cp) + cq * sin db * (cq * sin db))
      with (cq * cq * (sin db * sin db + cos db * cos db)
            + 2 * cp * cq * cos db + cp * cp) by ring.
    replace ((cp * cos db + cq) * (cp * cos db + cq) + cp * sin db' * (cp * sin db'))
      with (cp * cp * (sin db' * sin db' + cos db * cos db)
            + 2 * cp * cq * cos db + cq * cq) by ring.
    rewrite H1, H2. ring.
  - destruct height_; [reflexivity |]. unfold _havg. apply favg_half_sym.
Qed.

Lemma classof_in_range (lat_ lon_ h : R) :
  -90 <= lat_ <= 90 -> -180 < lon_ <= 180 ->
  classof lat_ lon_ h = Ok (mkLatLon lat_ lon_ h).
Proof.
  intros Hlat Hlon. unfold classof, Rltb.
  destruct (Rlt_dec lat_ (-90)); [lra |]. destruct (Rlt_dec 90 lat_); [lra |].
  destruct (Rlt_dec (-180) lon_); [| lra]. destruct (Rlt_dec 180 lon_); [lra |].
  reflexivity.
Qed.

Lemma classof_outcomes (lat_ lon_ h : R) :
  classof lat_ lon_ h = Ok (mkLatLon lat_ lon_ h)
  \/ classof lat_ lon_ h = Raise RangeError.
Proof.
  unfold classof. destruct (_ || _); [right | left]; reflexivity.
Qed.

(** [atan2] of a point in the right half plane, its edge included, is in
    [-PI/2, PI/2]. *)
Lemma atan2_right_half (y x : R) : 0 <= x -> - (PI / 2) <= atan2 y x <= PI / 2.
Proof.
  intros Hx. pose proof PI_RGT_0 as Hpi. unfold atan2.
  destruct (Rlt_dec 0 x); [pose proof (atan_bound (y / x)); lra |].
  destruct (Rlt_dec x 0); [lra |].
  destruct (Rlt_dec 0 y); [lra |]. destruct (Rlt_dec y 0); lra.
Qed.

Lemma favg_between (v1 v2 f lo hi : R) :
  lo <= v1 <= hi -> lo <= v2 <= hi -> 0 <= f <= 1 -> lo <= favg v1 v2 f <= hi.
Proof.
  intros H1 H2 Hf. unfold favg.
  replace (v1 + f * (v2 - v1)) with ((1 - f) * v1 + f * v2) by ring.
  split; nra.
Qed.

(** X16.  The only error [intermediateTo] can raise is the [RangeError] of
    the constructor of points: it divides by sin r only when |sin r| > EPS.
    It returns a point, with a latitude in [-90, 90] and a longitude in
    (-180, 180], when |sin r| > EPS, for every fraction, and also when the
    fraction is in [0, 1] and both latitudes are in [-90, 90]; [degrees90] and
    [degrees180] are taken to return a latitude and a longitude in range.
    For other fractions the branch of points "too close", which antipodal
    points take as well, may leave the range of latitudes
    ([intermediateTo_beyond_end]).  The height is the given one or else at the
    fraction between the two heights. *)
Theorem intermediateTo_returns (self other : LatLon) (fraction : R)
    (height_ : option R) (wrap : bool) :
  let h := match height_ with
           | None => favg (height self) (height other) fraction
           | Some h => h
           end in
  ((exists a b, intermediateTo self other fraction height_ wrap = Ok (mkLatLon a b h))
   \/ intermediateTo self other fraction height_ wrap = Raise RangeError)
  /\ (normalizers_in_range ->
      EPS < Rabs (sin (angular_separation self other wrap))
      \/ (valid_lat self /\ valid_lat other /\ 0 <= fraction <= 1) ->
      exists a b,
        -90 <= a <= 90 /\ -180 < b <= 180
        /\ intermediateTo self other fraction height_ wrap = Ok (mkLatLon a b h)).
Proof.
  intros h. unfold intermediateTo, angular_separation, to2ab, _havg. fold h.
  destruct (unrollPI (radians (lon self)) (radians (lon other)) wrap) as [db b2].
  cbn [fst]. cbv zeta.
  set (r := haversine_ (radians (lat other)) (radians (lat self)) db).
  assert (Hout : forall a b,
             (exists a' b', classof a b h = Ok (mkLatLon a' b' h))
             \/ classof a b h = Raise RangeError).
  { intros a b. destruct (classof_outcomes a b h) as [-> | ->];
      [left; do 2 eexists; reflexivity | right; reflexivity]. }
  assert (Hin : normalizers_in_range ->
                forall a b, - (PI / 2) <= a <= PI / 2 ->
                  exists a' b', -90 <= a' <= 90 /\ -180 < b' <= 180
                    /\ classof (degrees90 a) (degrees180 b) h = Ok (mkLatLon a' b' h)).
  { intros [H90 H180] a b Ha. exists (degrees90 a), (degrees180 b).
    split; [apply H90, Ha |]. split; [apply H180 |].
    apply classof_in_range; [apply H90, Ha | apply H180]. }
  destruct (Rlt_dec EPS (Rabs (sin r))) as [H | H].
  - assert (Hs : sin r <> 0).
    { intros E. rewrite E, Rabs_R0 in H. pose proof EPS_pos. lra. }
    rewrite !py_div_ok by exact Hs. cbn [bind]. split; [apply Hout |].
    intros Hn _. apply Hin; [exact Hn |]. apply atan2_right_half, sqrt_pos.
  - cbn [bind]. split; [apply Hout |].
    intros Hn [Hr | [Hv1 [Hv2 Hf]]]; [contradiction |].
    apply Hin; [exact Hn |].
    apply favg_between;
      [apply radians_valid_lat; assumption .. | exact Hf].
Qed.

(** X17.  The intermediate point at the fraction 0 is this point and at the
    fraction 1 the other point, with their heights, as the docstring has it
    ("0.0 = this point, 1.0 = the other point"): for two points with a
    latitude in (-90, 90) and a longitude in (-180, 180] whose coordinates the
    normalizers leave as they are. *)
Theorem intermediateTo_ends (self other : LatLon) (wrap : bool) :
  unrollPI_unrolls ->
  off_pole self -> off_pole other ->
  normalizers_keep self -> normalizers_keep other ->
  intermediateTo self other 0 None wrap = Ok self
  /\ intermediateTo self other 1 None wrap = Ok other.
Proof.
  intros Hu Hs Ho [Hlat1 Hlon1] [Hlat2 Hlon2].
  pose proof (radians_off_pole self Hs) as [Ha1 Hb1].
  pose proof (radians_off_pole other Ho) as [Ha2 Hb2].
  pose proof PI_RGT_0 as Hpi.
  specialize (Hlon1 0%Z) as Hlon10.
  replace (radians (lon self) + 2 * 0 * PI) with (radians (lon self)) in Hlon10 by ring.
  unfold intermediateTo, to2ab, _havg.
  destruct (Hu (radians (lon self)) (radians (lon other)) wrap) as [[k Hk] Hsnd].
  destruct (unrollPI (radians (lon self)) (radians (lon other)) wrap) as [db b2].
  cbn [fst snd] in Hk, Hsnd. cbv zeta.
  set (a1 := radians (lat self)) in *. set (b1 := radians (lon self)) in *.
  set (a2 := radians (lat other)) in *. set (b2o := radians (lon other)) in *.
  assert (Eb2 : b2 = b2o + 2 * IZR k * PI) by (rewrite Hsnd, Hk; ring).
  assert (Hc1 : 0 < cos a1) by (apply cos_gt_0; lra).
  assert (Hc2 : 0 < cos a2) by (apply cos_gt_0; lra).
  set (r := haversine_ a2 a1 db).
  destruct (Rlt_dec EPS (Rabs (sin r))) as [H | H].
  - assert (Hsr : sin r <> 0).
    { intros E. rewrite E, Rabs_R0 in H. pose proof EPS_pos. lra. }
    rewrite !py_div_ok by exact Hsr. cbn [bind].
    rewrite !Rminus_0_r, !Rminus_diag, !Rmult_0_l, !Rmult_1_l, sin_0.
    replace (0 / sin r) with 0 by (field; exact Hsr).
    replace (sin r / sin r) with 1 by (field; exact Hsr).
    rewrite !Rmult_0_l, !Rplus_0_r, !Rplus_0_l, !Rmult_1_l.
    rewrite (hypot_polar (cos a1) b1) by lra.
    rewrite (atan2_polar_lat a1) by lra.
    rewrite (atan2_polar (cos a1) b1) by lra.
    rewrite Eb2, sin_plus_Z_turns, cos_plus_Z_turns.
    rewrite (hypot_polar (cos a2) b2o) by lra.
    rewrite (atan2_polar_lat a2) by lra.
    rewrite (atan2_polar (cos a2) b2o) by lra.
    rewrite Hlat1, Hlat2, Hlon10, favg_0, favg_1.
    specialize (Hlon2 0%Z).
    replace (b2o + 2 * 0 * PI) with b2o in Hlon2 by ring.
    rewrite Hlon2.
    rewrite !classof_in_range by (destruct Hs, Ho; lra).
    destruct self, other. split; reflexivity.
  - cbn [bind]. rewrite !favg_0, !favg_1, Hlat1, Hlat2, Hlon10, Eb2.
    rewrite Hlon2.
    rewrite !classof_in_range by (destruct Hs, Ho; lra).
    destruct self, other. split; reflexivity.
Qed.

End Between.

(** ** Polygons without an inside *)

Lemma edges_from_Forall (P : LatLon -> Prop) (l : list LatLon) :
  forall prev, P prev -> Forall P l ->
    Forall (fun e => P (fst e) /\ P (snd e)) (edges_from prev l).
Proof.
  induction l as [| p l IH]; intros prev Hprev Hl; cbn [edges_from]; [constructor |].
  inversion Hl as [| ? ? Hp Hl']; subst.
  constructor; [split; assumption | apply IH; assumption].
Qed.

Lemma polygon_edges_Forall (P : LatLon -> Prop) (l : list LatLon) :
  Forall P l -> Forall (fun e => P (fst e) /\ P (snd e)) (polygon_edges l).
Proof.
  intros Hl. unfold polygon_edges. destruct l as [| p l]; [constructor |].
  apply edges_from_Forall; [| exact Hl].
  rewrite Forall_forall in Hl. apply Hl.
  destruct (@exists_last _ (p :: l) ltac:(discriminate)) as [l' [z E]].
  rewrite E, last_last, <- E. rewrite E. apply in_or_app. right. left. reflexivity.
Qed.

Lemma fsum_map_zero {A : Type} (f : A -> R) (l : list A) :
  Forall (fun x => f x = 0) l -> fsum (map f l) = 0.
Proof.
  induction 1 as [| x l Hx _ IH]; [reflexivity |].
  cbn [map]. unfold fsum in *. cbn [fold_right]. rewrite Hx, IH. ring.
Qed.

Section Degenerate.

Context {formy : Formy} {utily : Utily} {points_ : Points} {base : SphericalBase}.

Lemma edge_excess_meridian (wrap : bool) (p1 p2 : LatLon) :
  unrollPI_unrolls ->
  valid_lat p1 -> valid_lat p2 -> lon p1 = lon p2 ->
  edge_excess wrap (p1, p2) = 0.
Proof.
  intros Hu H1 H2 Hlon. unfold edge_excess.
  destruct (Hu (radians (lon p1)) (radians (lon p2)) wrap) as [[k Hk] _].
  rewrite Hk, Hlon, Rminus_diag.
  replace ((0 + 2 * IZR k * PI) / 2) with (0 + IZR k * PI) by field.
  rewrite tan_plus_Z_PI, tan_0, Rmult_0_l.
  pose proof (tan_2_valid_lat p1 H1) as B1. pose proof (tan_2_valid_lat p2 H2) as B2.
  unfold tan_2 in B1, B2.
  set (t1 := tan (radians (lat p1) / 2)) in *.
  set (t2 := tan (radians (lat p2) / 2)) in *.
  assert (H0 : 0 <= 1 + t1 * t2) by nra.
  destruct (Req_dec_T (1 + t1 * t2) 0) as [-> | Hne].
  - rewrite atan2_0_0. ring.
  - rewrite atan2_0_pos by lra. ring.
Qed.

(** X18.  A polygon without an inside has the area 0: [areaOf] returns 0
    for points that are all on the equator, and for points with latitudes in
    [-90, 90] that are all on one meridian, when the pole test finds no pole
    inside. *)
Theorem areaOf_degenerate (points : PointSeq) (radius : R) (wrap : bool)
    (n : nat) (pts : PointSeq) :
  unrollPI_unrolls ->
  points2 points true = Ok (n, pts) ->
  n = length (items pts) -> (1 <= n)%nat ->
  ispolar pts false = false ->
  Forall (fun p => lat p = 0) (items pts)
  \/ (exists b, Forall (fun p => valid_lat p /\ lon p = b) (items pts)) ->
  areaOf points radius wrap = Ok 0.
Proof.
  intros Hu Hp Hn H1 Hpole Hd.
  rewrite (areaOf_value points radius wrap n pts Hu Hp Hn H1), Hpole.
  assert (Hs : excess_sum wrap (items pts) = 0).
  { unfold excess_sum. apply fsum_map_zero.
    destruct Hd as [He | [b Hm]].
    - apply polygon_edges_Forall in He.
      eapply Forall_impl; [| exact He]. intros [p q] [Hp1 Hp2].
      apply edge_excess_equator; assumption.
    - apply polygon_edges_Forall in Hm.
      eapply Forall_impl; [| exact Hm]. intros [p q] [[Hv1 Hb1] [Hv2 Hb2]].
      cbn [fst snd] in *. apply edge_excess_meridian; [assumption .. | congruence]. }
  rewrite Hs, Rmult_0_l, Rabs_R0. reflexivity.
Qed.

End Degenerate.

(** ** The further properties at concrete points *)

Lemma Model_normalizers_keep (p : LatLon) :
  valid_lat p -> -180 < lon p <= 180 -> @normalizers_keep Model.utily p.
Proof.
  intros [Hl Hh] Hlon. split.
  - cbn [degrees90 Model.utily]. unfold Model.degrees90. rewrite degrees_radians.
    apply wrap_into_id; lra.
  - intros k. cbn [degrees180 Model.utily]. unfold Model.degrees180.
    replace (degrees (radians (lon p) + 2 * IZR k * PI)) with (lon p + 360 * IZR k)
      by (unfold degrees, radians; field; apply PI_neq0).
    rewrite (wrap_into_eq 180 360 _ k) by lra. ring.
Qed.

Lemma Model_unrollPI_plain : @unrollPI_plain Model.utily.
Proof. intros b1 b2. reflexivity. Qed.

Lemma one_neq_0 : 1 <> 0.
Proof. lra. Qed.

Lemma valid_lat_45_1 : valid_lat (mkLatLon 45 1 0).
Proof. unfold valid_lat. cbn [lat]. lra. Qed.

Lemma off_pole_45_1 : off_pole (mkLatLon 45 1 0).
Proof. unfold off_pole. cbn [lat lon]. lra. Qed.

Lemma off_pole_46_2 : off_pole (mkLatLon 46 2 0).
Proof. unfold off_pole. cbn [lat lon]. lra. Qed.

Lemma keep_45_1 : @normalizers_keep Model.utily (mkLatLon 45 1 0).
Proof. apply Model_normalizers_keep; [exact valid_lat_45_1 | cbn [lon]; lra]. Qed.

Lemma wrap_into_range (hi m x : R) :
  0 < m -> hi - m < Model.wrap_into hi m x <= hi.
Proof.
  intros Hm. unfold Model.wrap_into. rewrite minus_IZR.
  destruct (archimed ((hi - x) / m)) as [Hu Hl].
  set (u := IZR (up ((hi - x) / m))) in *.
  assert (H1 : hi - x < m * u).
  { apply (Rmult_lt_compat_l m) in Hu; [| exact Hm].
    replace (m * ((hi - x) / m)) with (hi - x) in Hu by (field; lra). lra. }
  assert (H2 : m * u - m <= hi - x).
  { assert (H : u - 1 <= (hi - x) / m) by lra.
    apply (Rmult_le_compat_l m) in H; [| lra].
    replace (m * ((hi - x) / m)) with (hi - x) in H by (field; lra). lra. }
  split; nra.
Qed.

Lemma Model_normalizers_in_range : @normalizers_in_range Model.utily.
Proof.
  split.
  - intros a Ha. cbn [degrees90 Model.utily]. unfold Model.degrees90.
    assert (Hd : -90 <= degrees a <= 90).
    { unfold degrees. pose proof PI_RGT_0 as Hpi.
      assert (Hk : 0 < 180 / PI) by (apply Rdiv_lt_0_compat; lra).
      assert (Hpk : PI * (180 / PI) = 180) by (field; lra).
      set (k := 180 / PI) in *. split; nra. }
    rewrite wrap_into_id by lra. exact Hd.
  - intros b. cbn [degrees180 Model.utily]. unfold Model.degrees180.
    pose proof (wrap_into_range 180 360 (degrees b) ltac:(lra)) as H. lra.
Qed.

Lemma valid_lat_46_2 : valid_lat (mkLatLon 46 2 0).
Proof. unfold valid_lat. cbn [lat]. lra. Qed.

Lemma half_in_unit : 0 <= 1 / 2 <= 1.
Proof. lra. Qed.

Lemma keep_46_2 : @normalizers_keep Model.utily (mkLatLon 46 2 0).
Proof.
  apply Model_normalizers_keep; [unfold valid_lat; cbn [lat]; lra | cbn [lon]; lra].
Qed.

Lemma track_x_of_end {formy : Formy} {utily : Utily} (start end_ : LatLon) (wrap : bool) :
  EPS < Rabs (cos (track_x end_ start end_ wrap)).
Proof.
  unfold track_x. rewrite Rminus_diag, sin_0, Rmult_0_r, asin_0, cos_0, Rabs_R1.
  pose proof EPS_small. lra.
Qed.

Lemma separation_quarter_bounds :
  0 <= @angular_separation Model.formy Model.utily
         (mkLatLon 0 0 0) (mkLatLon 0 90 0) false <= PI.
Proof.
  unfold angular_separation. cbn [lat lon]. model_fields.
  rewrite radians_0, radians_90. unfold Model.unrollPI. cbn [andb fst].
  replace (PI / 2 - 0) with (PI / 2) by ring. rewrite Model_haversine_quarter.
  pose proof PI_RGT_0. lra.
Qed.

Lemma two_le_four : (2 <= 4)%nat.
Proof. lia. Qed.

Lemma equator_lat_0 : Forall (fun p => lat p = 0) equator.
Proof. unfold equator. repeat constructor. Qed.

(** A destination at the radius 0 and at the radius 1. *)
Lemma destination_radius_witness :
  @destination Model.utily (mkLatLon 45 1 0) 1 90 0 None = Raise ZeroDivisionError
  /\ (@destination Model.utily (mkLatLon 45 1 0) 1 90 1 None
      = Raise (ValueError MathDomain)
      \/ exists a b,
           - (PI / 2) <= a <= PI / 2
           /\ @destination Model.utily (mkLatLon 45 1 0) 1 90 1 None
              = Ok (mkLatLon (Model.degrees90 a) (Model.degrees180 b) 0)).
Proof.
  split.
  - exact (proj1 (destination_radius (utily := Model.utily)
                    (mkLatLon 45 1 0) 1 90 0 None) eq_refl).
  - exact (proj2 (destination_radius (utily := Model.utily)
                    (mkLatLon 45 1 0) 1 90 1 None) one_neq_0).
Defined.

(** No way from (45, 1). *)
Lemma destination_distance_0_witness :
  1 <> 0 /\ valid_lat (mkLatLon 45 1 0)
  /\ @normalizers_keep Model.utily (mkLatLon 45 1 0)
  /\ @destination Model.utily (mkLatLon 45 1 0) 0 90 1 None = Ok (mkLatLon 45 1 0).
Proof.
  split; [exact one_neq_0 |]. split; [exact valid_lat_45_1 |].
  split; [exact keep_45_1 |].
  exact (destination_distance_0 (utily := Model.utily) (mkLatLon 45 1 0) 90 1
           one_neq_0 valid_lat_45_1 keep_45_1).
Defined.

(** The track distances of (53, -1) for the path from (53, -2) to (53, 0) and
    the radius 1. *)
Lemma track_distances_bounded_witness :
  EPS <= 1
  /\ exists cross along,
       @crossTrackDistanceTo Model.formy Model.utily Model.base
         (mkLatLon 53 (-1) 0) (mkLatLon 53 (-2) 0) (mkLatLon 53 0 0) 1 false = Ok cross
       /\ Rabs cross <= PI / 2 * 1
       /\ @alongTrackDistanceTo Model.formy Model.utily Model.base
            (mkLatLon 53 (-1) 0) (mkLatLon 53 (-2) 0) (mkLatLon 53 0 0) 1 false = Ok along
       /\ Rabs along <= PI * 1.
Proof.
  split; [exact EPS_le_1 |].
  exact (track_distances_bounded (formy := Model.formy) (utily := Model.utily)
           (base := Model.base)
           (mkLatLon 53 (-1) 0) (mkLatLon 53 (-2) 0) (mkLatLon 53 0 0) 1 false
           EPS_le_1).
Defined.

(** The two track distances of the end (53, 0) of the path from (53, -2). *)
Lemma track_distances_pythagoras_witness :
  EPS <= 1
  /\ EPS < Rabs (cos (@track_x Model.formy Model.utily
                        (mkLatLon 53 0 0) (mkLatLon 53 (-2) 0) (mkLatLon 53 0 0) false))
  /\ exists along cross,
       @alongTrackDistanceTo Model.formy Model.utily Model.base
         (mkLatLon 53 0 0) (mkLatLon 53 (-2) 0) (mkLatLon 53 0 0) 1 false = Ok along
       /\ @crossTrackDistanceTo Model.formy Model.utily Model.base
            (mkLatLon 53 0 0) (mkLatLon 53 (-2) 0) (mkLatLon 53 0 0) 1 false = Ok cross
       /\ cos (@track_r Model.formy Model.utily (mkLatLon 53 0 0) (mkLatLon 53 (-2) 0) false)
          = cos (cross / 1) * cos (along / 1).
Proof.
  split; [exact EPS_le_1 |].
  split; [exact (track_x_of_end (mkLatLon 53 (-2) 0) (mkLatLon 53 0 0) false) |].
  exact (track_distances_pythagoras (formy := Model.formy) (utily := Model.utily)
           (base := Model.base)
           (mkLatLon 53 0 0) (mkLatLon 53 (-2) 0) (mkLatLon 53 0 0) 1 false
           EPS_le_1 (track_x_of_end (mkLatLon 53 (-2) 0) (mkLatLon 53 0 0) false)).
Defined.

(** The end (0, 90) of the path from (0, 0) along the equator. *)
Lemma track_distances_of_end_witness :
  EPS <= 1
  /\ 0 <= @angular_separation Model.formy Model.utily
            (mkLatLon 0 0 0) (mkLatLon 0 90 0) false <= PI
  /\ @crossTrackDistanceTo Model.formy Model.utily Model.base
       (mkLatLon 0 90 0) (mkLatLon 0 0 0) (mkLatLon 0 90 0) 1 false = Ok 0
  /\ @alongTrackDistanceTo Model.formy Model.utily Model.base
       (mkLatLon 0 90 0) (mkLatLon 0 0 0) (mkLatLon 0 90 0) 1 false
     = Ok (@distanceTo Model.formy Model.utily (mkLatLon 0 0 0) (mkLatLon 0 90 0) 1 false).
Proof.
  split; [exact EPS_le_1 |]. split; [exact separation_quarter_bounds |].
  exact (track_distances_of_end (formy := Model.formy) (utily := Model.utily)
           (base := Model.base) (mkLatLon 0 0 0) (mkLatLon 0 90 0) 1 false
           EPS_le_1 separation_quarter_bounds).
Defined.

(** The path of the two points (45, 1) and (46, 2). *)
Lemma perimeterOf_two_points_witness :
  @points2 Model.base (mkPoints [mkLatLon 45 1 0; mkLatLon 46 2 0] false) false
  = Ok (2%nat, mkPoints [mkLatLon 45 1 0; mkLatLon 46 2 0] false)
  /\ @perimeterOf Model.formy Model.utily Model.base
       (mkPoints [mkLatLon 45 1 0; mkLatLon 46 2 0] false) false 1 true
     = Ok (@distanceTo Model.formy Model.utily (mkLatLon 45 1 0) (mkLatLon 46 2 0) 1 true).
Proof.
  split; [reflexivity |].
  exact (perimeterOf_two_points (formy := Model.formy) (utily := Model.utily)
           (base := Model.base)
           (mkPoints [mkLatLon 45 1 0; mkLatLon 46 2 0] false)
           (mkPoints [mkLatLon 45 1 0; mkLatLon 46 2 0] false)
           (mkLatLon 45 1 0) (mkLatLon 46 2 0) 1 true eq_refl eq_refl).
Defined.

(** The perimeter of [square], closed and open. *)
Lemma perimeterOf_closed_open_witness :
  @unrollPI_plain Model.utily
  /\ exists first last_ open,
       nth_error square 0 = Some first
       /\ nth_error square (4 - 1) = Some last_
       /\ @perimeterOf Model.formy Model.utily Model.base
            (mkPoints square false) false 1 false = Ok open
       /\ @perimeterOf Model.formy Model.utily Model.base
            (mkPoints square false) true 1 false
          = Ok (@distanceTo Model.formy Model.utily last_ first 1 false + open).
Proof.
  split; [exact Model_unrollPI_plain |].
  exact (perimeterOf_closed_open (formy := Model.formy) (utily := Model.utily)
           (base := Model.base) (mkPoints square false) (mkPoints square false) 4 1
           Model_unrollPI_plain eq_refl eq_refl eq_refl one_le_four).
Defined.

(** The area of [square], started at its second point. *)
Lemma areaOf_rotated_witness :
  @points2 Model.base (rotated (mkPoints square false)) true
  = Ok (4%nat, rotated (mkPoints square false))
  /\ @areaOf Model.utily Model.no_pole Model.base (rotated (mkPoints square false)) 1 true
     = @areaOf Model.utily Model.no_pole Model.base (mkPoints square false) 1 true.
Proof.
  split; [reflexivity |].
  exact (areaOf_rotated (utily := Model.utily) (points_ := Model.no_pole)
           (base := Model.base) (mkPoints square false) 1 true 4
           (mkPoints square false) Model_unrollPI_unrolls eq_refl eq_refl
           three_le_four eq_refl eq_refl).
Defined.

(** Three points on the equator enclose no area. *)
Lemma areaOf_degenerate_witness :
  Forall (fun p => lat p = 0) equator
  /\ @areaOf Model.utily Model.no_pole Model.base (mkPoints equator false) 1 true = Ok 0.
Proof.
  split; [exact equator_lat_0 |].
  exact (areaOf_degenerate (utily := Model.utily) (points_ := Model.no_pole)
           (base := Model.base) (mkPoints equator false) 1 true 3
           (mkPoints equator false) Model_unrollPI_unrolls eq_refl eq_refl
           one_le_three eq_refl (or_introl equator_lat_0)).
Defined.

(** The two branches on the polygon [dented] and the point [outside]. *)
Lemma isenclosedBy_branches_related_witness :
  (2 <= 4)%nat
  /\ (isenclosedBy_numpy (toVector3d outside) 4 (mkPoints dented false)
      = isenclosedBy_plain (toVector3d outside) 4 (mkPoints dented false)
      \/ (isenclosedBy_numpy (toVector3d outside) 4 (mkPoints dented false)
          = Raise (ValueError NonConvex)
          /\ isenclosedBy_plain (toVector3d outside) 4 (mkPoints dented false)
             = Ok (Some false))).
Proof.
  split; [exact two_le_four |].
  exact (isenclosedBy_branches_related (toVector3d outside) 4 (mkPoints dented false)
           eq_refl two_le_four).
Defined.

(** The outcome for the polygon [dented] and the point [outside]. *)
Lemma isenclosedBy_outcomes_witness :
  @points2 Model.base (mkPoints dented true) true = Ok (4%nat, mkPoints dented true)
  /\ (@isenclosedBy Model.utily Model.base outside (mkPoints dented true) = Ok true
      \/ @isenclosedBy Model.utily Model.base outside (mkPoints dented true) = Ok false
      \/ @isenclosedBy Model.utily Model.base outside (mkPoints dented true)
         = Raise (ValueError NonConvex)).
Proof.
  split; [reflexivity |].
  exact (isenclosedBy_outcomes (utily := Model.utily) (base := Model.base)
           outside (mkPoints dented true) (mkPoints dented true) 4
           eq_refl eq_refl two_le_four).
Defined.

(** The great circle through (45, 1) and (46, 2) and the parallel of the
    pole. *)
Lemma crossingParallels_degenerate_witness :
  @unrollPI_unrolls Model.utily
  /\ @crossingParallels Model.utily (mkLatLon 45 1 0) (mkLatLon 46 2 0) 90 false
     = Ok None.
Proof.
  split; [exact Model_unrollPI_unrolls |].
  exact (crossingParallels_degenerate (utily := Model.utily)
           (mkLatLon 45 1 0) (mkLatLon 46 2 0) 90 false
           Model_unrollPI_unrolls (or_introl eq_refl)).
Defined.

(** The midpoint of (45, 1) and itself. *)
Lemma midpointTo_same_witness :
  valid_lat (mkLatLon 45 1 0)
  /\ @normalizers_keep Model.utily (mkLatLon 45 1 0)
  /\ @midpointTo Model.utily (mkLatLon 45 1 0) (mkLatLon 45 1 0) None true
     = mkLatLon 45 1 0.
Proof.
  split; [exact valid_lat_45_1 |]. split; [exact keep_45_1 |].
  exact (midpointTo_same (utily := Model.utily) (mkLatLon 45 1 0) None true
           Model_unrollPI_unrolls valid_lat_45_1 keep_45_1).
Defined.

(** The midpoints of (45, 1) and (46, 2), from either one. *)
Lemma midpointTo_latitude_symmetric_witness :
  @unrollPI_unrolls Model.utily
  /\ lat (@midpointTo Model.utily (mkLatLon 45 1 0) (mkLatLon 46 2 0) None true)
     = lat (@midpointTo Model.utily (mkLatLon 46 2 0) (mkLatLon 45 1 0) None true)
  /\ height (@midpointTo Model.utily (mkLatLon 45 1 0) (mkLatLon 46 2 0) None true)
     = height (@midpointTo Model.utily (mkLatLon 46 2 0) (mkLatLon 45 1 0) None true).
Proof.
  split; [exact Model_unrollPI_unrolls |].
  exact (midpointTo_latitude_symmetric (utily := Model.utily)
           (mkLatLon 45 1 0) (mkLatLon 46 2 0) None true Model_unrollPI_unrolls).
Defined.

Lemma Model_haversine_antipodes : Model.haversine_ (- (PI / 4)) (PI / 4) PI = PI.
Proof.
  unfold Model.haversine_.
  replace ((- (PI / 4) - PI / 4) / 2) with (- (PI / 4)) by field.
  rewrite sin_neg, sin_PI4', cos_neg, cos_PI4', sin_PI2.
  replace ((- rt2) ^ 2 + rt2 * rt2 * 1 ^ 2) with 1 by (pose proof rt2_sqr; nra).
  replace (1 - 1) with 0 by ring. rewrite sqrt_1, sqrt_0.
  unfold atan2. destruct (Rlt_dec 0 0); [lra |].
  destruct (Rlt_dec 0 1); [field | lra].
Qed.

(** Beyond the end of the way from (45, 0) to its antipode (-45, 180), at the
    fraction 2, the latitude is -135 degrees, which makes no point. *)
Lemma intermediateTo_beyond_end :
  @intermediateTo Model.formy Model.utily
    (mkLatLon 45 0 0) (mkLatLon (-45) 180 0) 2 None false
  = Raise RangeError.
Proof.
  unfold intermediateTo, to2ab. cbn [lat lon]. model_fields.
  rewrite radians_45, radians_0.
  replace (radians (-45)) with (- (PI / 4)) by (unfold radians; field; apply PI_neq0).
  replace (radians 180) with PI by (unfold radians; field; apply PI_neq0).
  unfold Model.unrollPI. cbn [andb]. cbv beta iota zeta.
  replace (PI - 0) with PI by ring.
  rewrite Model_haversine_antipodes, sin_PI, Rabs_R0.
  destruct (Rlt_dec EPS 0) as [H | _]; [pose proof EPS_pos; lra |].
  cbn [bind].
  replace (favg (PI / 4) (- (PI / 4)) 2) with (- (3 * (PI / 4))) by (unfold favg; field).
  unfold Model.degrees90.
  replace (degrees (- (3 * (PI / 4)))) with (-135)
    by (unfold degrees; field; apply PI_neq0).
  rewrite wrap_into_id by lra.
  unfold classof, Rltb. destruct (Rlt_dec (-135) (-90)); [reflexivity | lra].
Qed.

(** Half of the way from (45, 1) to (46, 2). *)
Lemma intermediateTo_returns_witness :
  @normalizers_in_range Model.utily
  /\ valid_lat (mkLatLon 45 1 0) /\ valid_lat (mkLatLon 46 2 0) /\ 0 <= 1 / 2 <= 1
  /\ exists a b,
       -90 <= a <= 90 /\ -180 < b <= 180
       /\ @intermediateTo Model.formy Model.utily
            (mkLatLon 45 1 0) (mkLatLon 46 2 0) (1 / 2) None true
          = Ok (mkLatLon a b (favg 0 0 (1 / 2))).
Proof.
  split; [exact Model_normalizers_in_range |].
  split; [exact valid_lat_45_1 |]. split; [exact valid_lat_46_2 |].
  split; [exact half_in_unit |].
  exact (proj2 (intermediateTo_returns (formy := Model.formy) (utily := Model.utily)
                  (mkLatLon 45 1 0) (mkLatLon 46 2 0) (1 / 2) None true)
           Model_normalizers_in_range
           (or_intror (conj valid_lat_45_1 (conj valid_lat_46_2 half_in_unit)))).
Defined.

(** The two ends of the way from (45, 1) to (46, 2). *)
Lemma intermediateTo_ends_witness :
  off_pole (mkLatLon 45 1 0) /\ off_pole (mkLatLon 46 2 0)
  /\ @intermediateTo Model.formy Model.utily (mkLatLon 45 1 0) (mkLatLon 46 2 0) 0 None true
     = Ok (mkLatLon 45 1 0)
  /\ @intermediateTo Model.formy Model.utily (mkLatLon 45 1 0) (mkLatLon 46 2 0) 1 None true
     = Ok (mkLatLon 46 2 0).
Proof.
  split; [exact off_pole_45_1 |]. split; [exact off_pole_46_2 |].
  exact (intermediateTo_ends (formy := Model.formy) (utily := Model.utily)
           (mkLatLon 45 1 0) (mkLatLon 46 2 0) true
           Model_unrollPI_unrolls off_pole_45_1 off_pole_46_2 keep_45_1 keep_46_2).
Defined.

(** ** When a polygon encloses a point *)

Lemma convex_loop_turns (n0 : Vector3d) (gcs : list Vector3d) :
  forall gc1,
    isenclosedBy_convex_loop n0 gcs gc1 = Ok None
    <-> Forall (fun t => ~ angleTo (fst t) (snd t) (Some n0) < 0) (turns_from gc1 gcs).
Proof.
  induction gcs as [| g gcs IH]; intros gc1; cbn [isenclosedBy_convex_loop turns_from].
  - split; [constructor | reflexivity].
  - destruct (Rlt_dec (angleTo gc1 g (Some n0)) 0) as [H | H].
    + split; [discriminate |]. intros HF. inversion HF as [| ? ? Hh _]. subst.
      cbn [fst snd] in Hh. contradiction.
    + rewrite IH. split.
      * intros HF. constructor; [exact H | exact HF].
      * intros HF. inversion HF. assumption.
Qed.

Lemma forallb_same_side_iff (n0 : Vector3d) (gcs : list Vector3d) :
  forallb (fun g => eqb (on_right n0 g) (on_right n0 (hd n0 gcs))) (tl gcs) = true
  <-> same_side n0 gcs.
Proof.
  unfold same_side. rewrite forallb_forall. split.
  - intros H g Hin. destruct gcs as [| g0 l]; [contradiction |].
    cbn [hd tl] in *. destruct Hin as [<- | Hin]; [reflexivity |].
    apply eqb_prop, H, Hin.
  - intros H g Hin. rewrite (H g); [apply eqb_reflx |].
    destruct gcs as [| g0 l]; [contradiction | right; exact Hin].
Qed.

Lemma isenclosedBy_plain_true (n0 : Vector3d) (n : nat) (points : PointSeq) :
  n = length (items points) -> (2 <= n)%nat ->
  isenclosedBy_plain n0 n points = Ok None
  <-> same_side n0 (edge_circles (items points))
      /\ convex_turns n0 (edge_circles (items points)).
Proof.
  intros Hn H2. rewrite (isenclosedBy_plain_circles n0 n points Hn H2).
  rewrite <- forallb_same_side_iff. unfold convex_turns.
  rewrite <- convex_loop_turns.
  destruct (forallb _ _); split.
  - intros H. split; [reflexivity | exact H].
  - intros [_ H]. exact H.
  - discriminate.
  - intros [H _]. discriminate.
Qed.

Lemma isenclosedBy_numpy_true (n0 : Vector3d) (n : nat) (points : PointSeq) :
  n = length (items points) -> (2 <= n)%nat ->
  isenclosedBy_numpy n0 n points = Ok None
  <-> same_side n0 (edge_circles (items points))
      /\ convex_turns n0 (edge_circles (items points)).
Proof.
  intros Hn H2. rewrite <- (isenclosedBy_plain_true n0 n points Hn H2).
  rewrite (isenclosedBy_numpy_circles n0 n points Hn H2).
  rewrite (isenclosedBy_plain_circles n0 n points Hn H2).
  pose proof (edge_circles_length (items points)) as Hlen.
  set (gcs := edge_circles (items points)) in *.
  rewrite <- (same_side_as_last n0 gcs) by (destruct gcs; [cbn in Hlen; lia | discriminate]).
  set (gl := last gcs n0).
  destruct (forallb (fun g => eqb (on_right n0 g) (on_right n0 gl)) gcs) eqn:E.
  - rewrite (numpy_on_circles_same n0 _ gcs gl E). reflexivity.
  - destruct (numpy_on_circles_other n0 _ gcs gl E) as [-> | ->];
      split; discriminate.
Qed.

Section Enclosed.

Context {utily : Utily} {base : SphericalBase}.

(** X19.  On points that [points2] accepts, [isenclosedBy] returns [True],
    on either branch, exactly when the point is on the same side of the great
    circles of all edges and no angle from the great circle of an edge to the
    one of the next edge, nor from the last to the first, is negative, signed
    by the point. *)
Theorem isenclosedBy_true_iff (self : LatLon) (points pts : PointSeq) (n : nat) :
  points2 points true = Ok (n, pts) ->
  n = length (items pts) -> (2 <= n)%nat ->
  isenclosedBy self points = Ok true
  <-> same_side (toVector3d self) (edge_circles (items pts))
      /\ convex_turns (toVector3d self) (edge_circles (items pts)).
Proof.
  intros Hp Hn H2. unfold isenclosedBy. rewrite Hp. cbn [bind].
  set (n0 := toVector3d self).
  assert (Hr : forall r : result (option bool),
             (r = Ok None \/ r = Ok (Some false) \/ r = Raise (ValueError NonConvex)) ->
             (r0 <- r ;; match r0 with Some b => Ok b | None => Ok true end) = Ok true
             <-> r = Ok None).
  { intros r [-> | [-> | ->]]; cbn [bind]; split; intros H; try reflexivity;
      discriminate. }
  destruct (iterNumpy2 pts).
  - rewrite Hr, (isenclosedBy_numpy_true n0 n pts Hn H2); [reflexivity |].
    rewrite (isenclosedBy_numpy_circles n0 n pts Hn H2).
    apply numpy_on_circles_outcomes.
  - rewrite Hr, (isenclosedBy_plain_true n0 n pts Hn H2); [reflexivity |].
    rewrite (isenclosedBy_plain_circles n0 n pts Hn H2).
    destruct (forallb _ _); [| right; left; reflexivity].
    destruct (convex_loop_outcomes n0 (edge_circles (items pts))
                (last (edge_circles (items pts)) n0)) as [-> | ->]; auto.
Qed.

End Enclosed.

(** The polygon [dented] and the point [outside]. *)
Lemma isenclosedBy_true_iff_witness :
  @points2 Model.base (mkPoints dented false) true = Ok (4%nat, mkPoints dented false)
  /\ (@isenclosedBy Model.utily Model.base outside (mkPoints dented false) = Ok true
      <-> same_side (toVector3d outside) (edge_circles dented)
          /\ convex_turns (toVector3d outside) (edge_circles dented)).
Proof.
  split; [reflexivity |].
  exact (isenclosedBy_true_iff (utily := Model.utily) (base := Model.base)
           outside (mkPoints dented false) (mkPoints dented false) 4
           eq_refl eq_refl two_le_four).
Defined.
